(** * szurubooru-toolkit: the import and tag pipelines

    A shallow embedding of [scripts/import_from_url.py] and
    [scripts/tag_posts.py], and the properties their specification
    states about them.

    Python [str] values are Rocq strings.  Case mapping ([str.lower]) and
    white space ([str.split]) are those of the ASCII range; a code point
    outside it is carried as its UTF-8 bytes, which is how the stray
    U+3000 of [set_tags] is written below. *)

From Stdlib Require Import List String Ascii Bool Arith Lia ZArith.
Import ListNotations.
Open Scope string_scope.

Set Implicit Arguments.

(** ** Python primitives *)

Module Py.

(** What a call can do besides returning: raise one of the exceptions
    the scripts meet, or (for the one unbounded loop) exhaust the fuel
    of the model. *)
Inductive outcome (A : Type) : Type :=
| Ok (a : A)
| KeyError
| AttributeError
| LookupFailed
| OutOfFuel.
Arguments Ok {A} a.
Arguments KeyError {A}.
Arguments AttributeError {A}.
Arguments LookupFailed {A}.
Arguments OutOfFuel {A}.

Definition bind {A B} (m : outcome A) (k : A -> outcome B) : outcome B :=
  match m with
  | Ok a => k a
  | KeyError => KeyError
  | AttributeError => AttributeError
  | LookupFailed => LookupFailed
  | OutOfFuel => OutOfFuel
  end.

(** [x in l] for a list of strings. *)
Definition mem (x : string) (l : list string) : bool :=
  existsb (String.eqb x) l.

(** Truth value of a list and of a string: empty is false. *)
Definition truthy_list {A} (l : list A) : bool :=
  match l with [] => false | _ :: _ => true end.

Definition truthy_str (s : string) : bool :=
  match s with EmptyString => false | String _ _ => true end.

(** Truth value of a value that may be [None]. *)
Definition truthy_opt (o : option string) : bool :=
  match o with None => false | Some s => truthy_str s end.

(** [l.remove(x)]: the first occurrence goes, later ones stay. *)
Fixpoint remove_first (x : string) (l : list string) : list string :=
  match l with
  | [] => []
  | y :: r => if String.eqb x y then r else y :: remove_first x r
  end.

(** [s.startswith(p)]. *)
Definition startswith (p s : string) : bool := String.prefix p s.

(** [s.find(c)] for a one-character needle: [None] is Python's [-1]. *)
Fixpoint find (c : ascii) (s : string) : option nat :=
  match s with
  | EmptyString => None
  | String d r =>
      if Ascii.eqb c d then Some 0
      else match find c r with Some i => Some (S i) | None => None end
  end.

(** [s.rfind(c)]. *)
Fixpoint rfind (c : ascii) (s : string) : option nat :=
  match s with
  | EmptyString => None
  | String d r =>
      match rfind c r with
      | Some i => Some (S i)
      | None => if Ascii.eqb c d then Some 0 else None
      end
  end.

(** [s[n:]]. *)
Fixpoint slice_from (n : nat) (s : string) : string :=
  match n, s with
  | 0, _ => s
  | S _, EmptyString => EmptyString
  | S k, String _ r => slice_from k r
  end.

(** [s.replace(old, new)] for a non-empty [old]: occurrences are taken
    left to right and do not overlap.  [skip] counts the characters of
    a match that are still to be passed over. *)
Fixpoint replace_from (old new s : string) (skip : nat) : string :=
  match s with
  | EmptyString => EmptyString
  | String c r =>
      match skip with
      | S k => replace_from old new r k
      | 0 =>
          if String.prefix old s
          then new ++ replace_from old new r (String.length old - 1)
          else String c (replace_from old new r 0)
      end
  end.

Definition replace (old new s : string) : string :=
  replace_from old new s 0.

Definition lower_ascii (c : ascii) : ascii :=
  let n := nat_of_ascii c in
  if ((65 <=? n) && (n <=? 90))%nat then ascii_of_nat (n + 32) else c.

(** [s.lower()]. *)
Fixpoint lower (s : string) : string :=
  match s with
  | EmptyString => EmptyString
  | String c r => String (lower_ascii c) (lower r)
  end.

(** The characters [str.split()] splits at: tab, line feed, vertical
    tab, form feed, carriage return, the four separators 28..31 and
    the space. *)
Definition is_space (c : ascii) : bool :=
  let n := nat_of_ascii c in
  (((9 <=? n) && (n <=? 13)) || ((28 <=? n) && (n <=? 32)))%nat.

(** [s.split()]: the maximal runs of characters that are not white
    space, in order.  [cur] is the run being read, reversed. *)
Fixpoint split_from (s : string) (cur : list ascii) : list string :=
  let flush := match cur with
               | [] => []
               | _ :: _ => [string_of_list_ascii (rev cur)]
               end in
  match s with
  | EmptyString => flush
  | String c r =>
      if is_space c then flush ++ split_from r []
      else split_from r (c :: cur)
  end.

Definition split (s : string) : list string := split_from s [].

(** [s.split(sep)] for a one-character separator: every separator
    ends a field, so the result is never empty. *)
Fixpoint split_on_from (sep : ascii) (s : string) (cur : list ascii)
  : list string :=
  match s with
  | EmptyString => [string_of_list_ascii (rev cur)]
  | String c r =>
      if Ascii.eqb c sep
      then string_of_list_ascii (rev cur) :: split_on_from sep r []
      else split_on_from sep r (c :: cur)
  end.

Definition split_on (sep : ascii) (s : string) : list string :=
  split_on_from sep s [].

(** Iterating over a string yields its one-character strings. *)
Fixpoint chars (s : string) : list string :=
  match s with
  | EmptyString => []
  | String c r => String c EmptyString :: chars r
  end.

(** Order-preserving removal of repeated entries: the first
    occurrence of each string stays. *)
Fixpoint dedup_from (seen l : list string) : list string :=
  match l with
  | [] => []
  | x :: r => if mem x seen then dedup_from seen r
              else x :: dedup_from (x :: seen) r
  end.

Definition dedup (l : list string) : list string := dedup_from [] l.

End Py.

Import Py.


(** ** The import pipeline: [import_from_url.py] *)

Module ImportFromUrl.

(** The value under ['tags'] or ['tag_string'] in a sidecar: a JSON
    array of strings or one string. *)
Inductive tags_value : Type :=
| TagList (l : list string)
| TagStr (s : string).

(** The sidecar record with the keys the script reads or writes; an
    absent key is [None].  [user_name] is [metadata['user']['name']],
    absent when either key is. *)
Record metadata : Type := Metadata {
  site : option string;
  source : option string;
  rating : option string;
  safety : option string;
  tags : option tags_value;
  tag_string : option tags_value;
  user_name : option string
}.

Definition set_site (m : metadata) (v : option string) : metadata :=
  Metadata v (source m) (rating m) (safety m) (tags m) (tag_string m)
           (user_name m).

Definition set_source (m : metadata) (v : string) : metadata :=
  Metadata (site m) (Some v) (rating m) (safety m) (tags m) (tag_string m)
           (user_name m).

Definition set_safety (m : metadata) (v : string) : metadata :=
  Metadata (site m) (source m) (rating m) (Some v) (tags m) (tag_string m)
           (user_name m).

Definition set_tags_field (m : metadata) (v : tags_value) : metadata :=
  Metadata (site m) (source m) (rating m) (safety m) (Some v) (tag_string m)
           (user_name m).

(** What a [for] loop or a scan sees in the value. *)
Definition py_iter (v : tags_value) : list string :=
  match v with
  | TagList l => l
  | TagStr s => chars s
  end.

(** [sub in s] for strings. *)
Fixpoint contains (sub s : string) : bool :=
  String.prefix sub s ||
  match s with
  | EmptyString => false
  | String _ r => contains sub r
  end.

(** ['R-18' in v]: membership in a list, containment in a string. *)
Definition has_r18 (v : tags_value) : bool :=
  match v with
  | TagList l => mem "R-18" l
  | TagStr s => contains "R-18" s
  end.

(** Modelled from the spec: [check_tags] of [szurubooru_toolkit.utils],
    which the sources at hand only import.  The spec describes it as the
    consistency check (deduplication/validation) the tag list passes
    through before it is returned: the entries in their order, each
    kept once. *)
Definition check_tags (v : tags_value) : list string :=
  dedup (py_iter v).

(** U+3000, the ideographic space, as its UTF-8 bytes. *)
Definition u3000 : string :=
  String (ascii_of_nat 227)
    (String (ascii_of_nat 128) (String (ascii_of_nat 128) EmptyString)).

(** One round of the e-hentai loop, lines 76-81: a tag that starts with
    [artist] and holds a colon sets the artist to what follows the
    first colon, spaces turned into underscores. *)
Definition after_colon (tag : string) : option string :=
  match find ":"%char tag with
  | Some index => Some (slice_from (index + 1) tag)
  | None => None
  end.

Definition eh_artist_step (artist tag : string) : string :=
  if startswith "artist" tag then
    match after_colon tag with
    | Some a => replace " " "_" a
    | None => artist
    end
  else artist.

Definition eh_artist (v : tags_value) : string :=
  fold_left eh_artist_step (py_iter v) "".

(** The tags that loop takes an artist from. *)
Definition names_artist (tag : string) : bool :=
  startswith "artist" tag &&
  match find ":"%char tag with Some _ => true | None => false end.

(** Lines 72-86: the artist, empty when none is found. *)
Definition find_artist (m : metadata) (v : tags_value) : string :=
  match site m with
  | Some "e-hentai" => eh_artist v
  | _ => match user_name m with Some n => n | None => "" end
  end.

(** Line 92 and 94: the variant the second lookup is made with. *)
Definition artist_sanitized (artist : string) : string :=
  replace u3000 "" (replace " " "_" (lower artist)).

Definition is_artist_site (s : option string) : bool :=
  match s with
  | Some n => (n =? "fanbox") || (n =? "e-hentai") || (n =? "pixiv")
  | None => false
  end.

Section Collaborators.

(** [danbooru_client.search_artist]: the canonical artist name, or
    nothing. *)
Variable search_artist : string -> option string.

(** Lines 90-98: the tag appended for a found artist. *)
Definition artist_tag (artist : string) : string :=
  let canon := search_artist artist in
  let canon := if truthy_opt canon then canon
               else search_artist (artist_sanitized artist) in
  match canon with
  | Some c => if truthy_str c then c else replace " " "_" artist
  | None => replace " " "_" artist
  end.

(** Lines 87-89. *)
Definition drop_r18 (m : metadata) (v : tags_value)
  : outcome (metadata * tags_value) :=
  if has_r18 v then
    match v with
    | TagList l => Ok (set_tags_field (set_safety m "unsafe")
                         (TagList (remove_first "R-18" l)),
                       TagList (remove_first "R-18" l))
    | TagStr _ => AttributeError
    end
  else Ok (m, v).

(** Lines 90-98 on the record. *)
Definition append_artist (artist : string) (m : metadata) (v : tags_value)
  : outcome (metadata * tags_value) :=
  if truthy_str artist then
    match v with
    | TagList l => Ok (set_tags_field m (TagList (l ++ [artist_tag artist])),
                       TagList (l ++ [artist_tag artist]))
    | TagStr _ => AttributeError
    end
  else Ok (m, v).

(** Lines 100-105. *)
Definition split_tags (m : metadata) : outcome metadata :=
  match tags m with
  | Some (TagStr s) => Ok (set_tags_field m (TagList (split s)))
  | Some (TagList _) => Ok m
  | None =>
      match tag_string m with
      | Some (TagStr s) => Ok (set_tags_field m (TagList (split s)))
      | Some (TagList _) => Ok m
      | None => KeyError
      end
  end.

(** Line 107. *)
Definition checked (m : metadata) : outcome (metadata * list string) :=
  match tags m with
  | Some v => Ok (m, check_tags v)
  | None => KeyError
  end.

(** [set_tags], lines 71-107: the record as the call leaves it and the
    list it returns. *)
Definition set_tags (m : metadata) : outcome (metadata * list string) :=
  if is_artist_site (site m) then
    match tags m with
    | None => KeyError
    | Some v =>
        bind (drop_r18 m v) (fun '(m1, v1) =>
        bind (append_artist (find_artist m v) m1 v1) (fun '(m2, _) =>
        checked m2))
    end
  else bind (split_tags m) checked.

(** [generate_src], [convert_rating] and [extract_twitter_artist] of
    [szurubooru_toolkit.utils], and the configured default safety. *)
Variable generate_src : metadata -> string.
Variable convert_rating : string -> string.
Variable extract_twitter_artist : metadata -> list string.
Variable default_safety : string.

(** Lines 222-227: the tags of one downloaded file. *)
Definition derive_tags (m : metadata) : outcome metadata :=
  match tags m, tag_string m with
  | None, None =>
      match site m with
      | Some "twitter" =>
          Ok (set_tags_field m (TagList (extract_twitter_artist m)))
      | _ => Ok (set_tags_field m (TagList []))
      end
  | _, _ =>
      bind (set_tags m) (fun '(m', l) => Ok (set_tags_field m' (TagList l)))
  end.

(** Lines 214-227: the sidecar of one file, annotated. *)
Definition annotate (site_key : option string) (m : metadata)
  : outcome metadata :=
  let m := set_site m site_key in
  let m := set_source m (generate_src m) in
  let m := match rating m with
           | Some r => set_safety m (convert_rating r)
           | None => set_safety m default_safety
           end in
  derive_tags m.

End Collaborators.

(** [Path(file).name]: the last component of the path, empty ones and
    [.] set aside. *)
Definition path_name (file : string) : string :=
  last (filter (fun c => negb ((c =? "") || (c =? ".")))
               (split_on "/"%char file)) "".

(** [Path(file).suffix]: the name from its last dot on, when that dot
    is neither the first nor the last character of the name. *)
Definition suffix (file : string) : string :=
  let name := path_name file in
  match rfind "."%char name with
  | Some i =>
      if ((0 <? i) && (i <? String.length name - 1))%nat
      then slice_from i name else ""
  | None => ""
  end.

(** Lines 197-199: the posts among the paths the glob returned. *)
Definition select_files (globbed : list string) : list string :=
  filter (fun file => negb (mem (suffix file) [".psd"; ".json"])) globbed.

(** What the argument parser hands back, lines 29-62. *)
Record args : Type := Args {
  arg_range : string;
  arg_urls : list string;
  arg_input_file : option string;
  arg_cookies : option string;
  arg_verbose : bool
}.

(** What a run of the process shows and how it leaves. *)
Inductive event : Type := PrintHelp.

Inductive proc (A : Type) : Type :=
| Return (a : A)
| Exit (status : Z).
Arguments Return {A} a.
Arguments Exit {A} status.

(** [parse_args], lines 62-68, from the parsed arguments on. *)
Definition parse_args (a : args)
  : list event *
    proc (string * list string * option string * option string * bool) :=
  if negb (truthy_list (arg_urls a)) && negb (truthy_opt (arg_input_file a))
  then ([PrintHelp], Exit 1%Z)
  else ([], Return (arg_range a, arg_urls a, arg_input_file a,
                    arg_cookies a, arg_verbose a)).

(** [main], lines 111-118: where the run takes its inputs from. *)
Definition main_inputs (urls : list string) (cookies : option string)
    (limit_range : string) (cli : args)
  : list event *
    proc (string * list string * option string * option string * bool) :=
  if negb (truthy_list urls) then parse_args cli
  else ([], Return (if truthy_str limit_range then limit_range
                    else ":10000",
                    urls, Some "", cookies, false)).

End ImportFromUrl.

(** ** The tag pipeline: [tag_posts.py] *)

Module TagPosts.

Inductive mode : Type := Append | Overwrite.

(** A tag as the target service returns it.  [implications] holds the
    names under which the implied tags are fetched again. *)
Record tag : Type := Tag {
  primary_name : string;
  implications : list string
}.

Record post : Type := Post {
  post_id : nat;
  post_tags : list string
}.

(** What [parse_args] returns, but for [add_tags], which is the one
    list object every round of the loop shares. *)
Record options : Type := Options {
  opt_remove_tags : option (list string);
  opt_update_implications : bool;
  opt_url : option string;
  opt_mode : mode;
  opt_query : string
}.

(** The parsed command line, lines 70-82. *)
Record cli : Type := Cli {
  cli_url : option string;
  cli_add_tags : option string;
  cli_remove_tags : option string;
  cli_mode : mode;
  cli_update_implications : bool;
  cli_query : string
}.

(** [post.tags] during one round: the post's own list, or the very
    list object [add_tags] names. *)
Inductive tags_ref : Type :=
| Own (l : list string)
| Shared.

Definition deref (add_tags : list string) (r : tags_ref) : list string :=
  match r with
  | Own l => l
  | Shared => add_tags
  end.

(** Lines 89 and 93: [s.replace(' ', '').split(',')]. *)
Definition comma_list (s : string) : list string :=
  split_on ","%char (replace " " "" s).

Section Service.

(** [list(set(...))]: the order in which a set built from the given
    entries is read back. *)
Variable set_order : list string -> list string.

(** [szuru.api.getTag]: the tag of that name, or no such tag. *)
Variable getTag : string -> option tag.

(** [==] between a tag object and a string. *)
Variable tag_eq : tag -> string -> bool.

(** [scrape_url_tags], lines 106-118, with its three clients. *)
Variable scrape_url_tags : string -> list string.

(** [parse_args], lines 84-104: [None] when the script leaves because
    nothing was asked for. *)
Definition parse_args (c : cli) : option (list string * options) :=
  if negb (truthy_opt (cli_url c)) && negb (truthy_opt (cli_add_tags c))
     && negb (truthy_opt (cli_remove_tags c))
     && negb (cli_update_implications c)
  then None
  else
    let add_tags := match cli_add_tags c with
                    | Some s => if truthy_str s then comma_list s else []
                    | None => []
                    end in
    let remove_tags := match cli_remove_tags c with
                       | Some s => if truthy_str s then Some (comma_list s)
                                   else None
                       | None => None
                       end in
    let add_tags := match cli_url c with
                    | Some u => if truthy_str u
                                then (add_tags ++ scrape_url_tags u)%list
                                else add_tags
                    | None => add_tags
                    end in
    Some (add_tags,
          Options remove_tags (cli_update_implications c) (cli_url c)
                  (cli_mode c) (cli_query c)).

(** Lines 146-151. *)
Definition apply_mode (m : mode) (add_tags prior : list string) : tags_ref :=
  match m with
  | Append =>
      if truthy_list add_tags then Own (set_order (prior ++ add_tags)%list)
      else Own prior
  | Overwrite =>
      if truthy_list add_tags then Shared else Own prior
  end.

(** Lines 153-154. *)
Definition apply_removal (remove_tags : option (list string))
    (add_tags : list string) (r : tags_ref) : tags_ref :=
  match remove_tags with
  | Some (x :: rm) =>
      Own (filter (fun tag => negb (mem tag (x :: rm))) (deref add_tags r))
  | _ => r
  end.

(** Lines 146-154 on values: the list [post.tags] names after them. *)
Definition merge_tags (o : options) (add_tags prior : list string)
  : list string :=
  deref add_tags
    (apply_removal (opt_remove_tags o) add_tags
       (apply_mode (opt_mode o) add_tags prior)).

(** [t not in l], negated: some entry of the list equals the tag
    object. *)
Definition tag_in (t : tag) (l : list string) : bool :=
  existsb (tag_eq t) l.

(** Lines 160-163, the inner loop over one tag's implications. *)
Fixpoint append_implications (tags imps : list string)
  : outcome (list string) :=
  match imps with
  | [] => Ok tags
  | implication :: rest =>
      match getTag implication with
      | None => LookupFailed
      | Some szuru_implication =>
          append_implications
            (if tag_in szuru_implication tags then tags
             else (tags ++ [primary_name szuru_implication])%list)
            rest
      end
  end.

(** Lines 158-163, the outer loop.  It runs over the list it appends
    to, so [i] is the position of the iterator in the live list. *)
Fixpoint expand (fuel i : nat) (tags : list string) : outcome (list string) :=
  match fuel with
  | 0 => OutOfFuel
  | S fuel' =>
      match nth_error tags i with
      | None => Ok tags
      | Some name =>
          match getTag name with
          | None => LookupFailed
          | Some szuru_tag =>
              bind (append_implications tags (implications szuru_tag))
                   (expand fuel' (S i))
          end
      end
  end.

(** Lines 146-165, one round: the content of [add_tags] after it and
    the post as it is sent to the service.  The bare read of
    [post.sourceurl] at line 156 has no effect. *)
Definition process_post (fuel : nat) (o : options) (add_tags : list string)
    (p : post) : outcome (list string * post) :=
  let r := apply_removal (opt_remove_tags o) add_tags
             (apply_mode (opt_mode o) add_tags (post_tags p)) in
  if opt_update_implications o then
    bind (expand fuel 0 (deref add_tags r)) (fun tags' =>
      Ok (match r with Shared => tags' | Own _ => add_tags end,
          Post (post_id p) tags'))
  else Ok (add_tags, Post (post_id p) (deref add_tags r)).

(** Lines 138-165, the loop: the posts sent to the service, in order,
    and the final content of [add_tags]. *)
Fixpoint run (fuel : nat) (o : options) (add_tags : list string)
    (posts : list post) : outcome (list post * list string) :=
  match posts with
  | [] => Ok ([], add_tags)
  | p :: rest =>
      bind (process_post fuel o add_tags p) (fun '(add_tags', p') =>
      bind (run fuel o add_tags' rest) (fun '(sent, final) =>
      Ok (p' :: sent, final)))
  end.

End Service.

(** Equality of objects that define none of their own: a tag object is
    no string. *)
Definition object_eq (t : tag) (s : string) : bool := false.

(** The comparison by name. *)
Definition name_eq (t : tag) (s : string) : bool := primary_name t =? s.

End TagPosts.

(** ** Sample inputs *)

Module Samples.

Import ImportFromUrl TagPosts.

(** A canonical-name search that finds nobody. *)
Definition nobody (name : string) : option string := None.

Definition no_source (m : metadata) : string := "".
Definition same_rating (r : string) : string := r.
Definition no_twitter_artist (m : metadata) : list string := [].

(** An e-hentai sidecar with one artist tag. *)
Definition john_doe : metadata :=
  Metadata (Some "e-hentai") None None None
           (Some (TagList ["artist:John Doe"])) None None.

(** A danbooru sidecar whose tags are one string. *)
Definition abc : metadata :=
  Metadata (Some "danbooru") None None None (Some (TagStr "a b c")) None None.

(** The same under the other field name. *)
Definition abc_tag_string : metadata :=
  Metadata (Some "danbooru") None None None None (Some (TagStr "a b c")) None.

(** A sidecar with neither field. *)
Definition untagged : metadata :=
  Metadata (Some "danbooru") None None None None None None.

(** A pixiv sidecar where the rating token comes twice. *)
Definition r18_twice : metadata :=
  Metadata (Some "pixiv") None None None
           (Some (TagList ["R-18"; "R-18"])) None None.

(** A pixiv sidecar where it comes once. *)
Definition r18_once : metadata :=
  Metadata (Some "pixiv") None None None
           (Some (TagList ["R-18"; "cat"])) None None.

(** What a glob over a download directory may return. *)
Definition downloaded : list string :=
  ["/tmp/17.5/1.jpg"; "/tmp/17.5/1.jpg.json";
   "/tmp/17.5/2.psd"; "/tmp/17.5/2.psd.json"].

Definition no_arguments : args := Args ":10000" [] None None false.

(** A tag service with the tags [a], [b], [c], [r], [x], [y] and [z],
    where [a] implies [b], both [x] and [c] imply [z], and [y] implies
    [r]. *)
Definition service (name : string) : option tag :=
  if name =? "a" then Some (Tag "a" ["b"])
  else if name =? "b" then Some (Tag "b" [])
  else if name =? "c" then Some (Tag "c" ["z"])
  else if name =? "r" then Some (Tag "r" [])
  else if name =? "x" then Some (Tag "x" ["z"])
  else if name =? "y" then Some (Tag "y" ["r"])
  else if name =? "z" then Some (Tag "z" [])
  else None.

Definition overwrite_only : options :=
  Options None false None Overwrite "*".

Definition overwrite_and_imply : options :=
  Options None true None Overwrite "*".

Definition append_only : options :=
  Options (Some ["old"]) false None Append "*".

Definition append_and_imply : options :=
  Options None true None Append "*".

Definition remove_and_imply : options :=
  Options (Some ["r"]) true None Append "*".

Definition remove_only : options :=
  Options (Some ["r"]) false None Overwrite "*".

Definition imply_only : options :=
  Options None true None Append "*".

End Samples.

(** ** The downloader call: [main] of [import_from_url.py] *)

Module Downloader.

Import ImportFromUrl.

(** One entry of [url_mappings], lines 147-158. *)
Record site_data : Type := SiteData {
  url_keyword : string;
  user_key : option string;
  password_key : option string
}.

(** The table, in the order the dictionary is written and read. *)
Definition url_mappings : list (string * site_data) :=
  [("sankaku", SiteData "sankaku" (Some "user") (Some "password"));
   ("danbooru", SiteData "danbooru" (Some "user") (Some "api_key"));
   ("gelbooru", SiteData "gelbooru" (Some "user") (Some "api_key"));
   ("konachan", SiteData "konachan" (Some "user") (Some "password"));
   ("yandere", SiteData "yande.re" (Some "user") (Some "password"));
   ("e-hentai", SiteData "e-hentai" None None);
   ("twitter", SiteData "twitter" None None);
   ("kemono", SiteData "kemono" None None);
   ("fanbox", SiteData "fanbox" None None);
   ("pixiv", SiteData "pixiv" None None)].

(** The configuration object: an attribute per site, each a mapping
    from keys to values; [None] is an attribute or a key that is not
    there. *)
Definition config : Type := string -> option (string -> option string).

(** [section[key]]: the key [None] of the table is in no section. *)
Definition section_get (section : string -> option string)
    (key : option string) : option string :=
  match key with
  | Some k => section k
  | None => None
  end.

(** Lines 168-173: both values, or neither when a lookup raises. *)
Definition credentials (cfg : config) (site_key : string) (d : site_data)
  : option string * option string :=
  match cfg site_key with
  | None => (None, None)
  | Some section =>
      match section_get section (user_key d),
            section_get section (password_key d) with
      | Some user, Some password => (Some user, Some password)
      | _, _ => (None, None)
      end
  end.

(** Lines 165-174, the inner loop: the first entry whose keyword the
    URL contains. *)
Definition match_url (url : string) : option (string * site_data) :=
  List.find (fun entry => contains (url_keyword (snd entry)) url)
            url_mappings.

(** Lines 160-177: site, user and password after the loops. *)
Fixpoint dispatch (cfg : config) (urls : list string)
  : option string * option string * option string :=
  match urls with
  | [] => (None, None, None)
  | url :: rest =>
      match match_url url with
      | Some (site_key, d) =>
          (Some site_key, fst (credentials cfg site_key d),
           snd (credentials cfg site_key d))
      | None => dispatch cfg rest
      end
  end.

(** Lines 133-138. *)
Definition base_command (download_dir : string) : list string :=
  ["gallery-dl"; "-q"; "--write-metadata"; "-D=" ++ download_dir].

(** Line 181: the test on the two values. *)
Definition usable (user password : option string) : bool :=
  match user, password with
  | Some u, Some p =>
      truthy_str u && truthy_str p && negb (u =? "none") && negb (p =? "none")
  | _, _ => false
  end.

(** Lines 179-191: the command before the URLs are appended. *)
Definition command_flags (download_dir limit_range : string)
    (user password cookies input_file : option string) (verbose : bool)
  : list string :=
  let command := (base_command download_dir ++ [String.append "--range=" limit_range])%list in
  let command :=
    match user, password with
    | Some u, Some p =>
        if usable user password
        then (command ++ [String.append "--username=" u;
                          String.append "--password=" p])%list
        else command
    | _, _ => command
    end in
  let command :=
    match cookies with
    | Some c => if truthy_str c then (command ++ [String.append "--cookies=" c])%list
                else command
    | None => command
    end in
  let command :=
    match input_file with
    | Some f => if truthy_str f then (command ++ [String.append "--input-file=" f])%list
                else command
    | None => command
    end in
  if verbose then remove_first "-q" command else command.

(** Lines 160-193: the command [subprocess.run] gets. *)
Definition build_command (cfg : config) (download_dir limit_range : string)
    (urls : list string) (cookies input_file : option string)
    (verbose : bool) : list string :=
  let '(_, user, password) := dispatch cfg urls in
  (command_flags download_dir limit_range user password cookies input_file
                 verbose ++ urls)%list.

(** One call of [upload_media.main], line 230. *)
Record upload_call : Type := UploadCall {
  up_file : string;
  up_extension : string;
  up_metadata : metadata;
  up_limit_reached : bool
}.

Section Loop.

Variable search_artist : string -> option string.
Variable generate_src : metadata -> string.
Variable convert_rating : string -> string.
Variable extract_twitter_artist : metadata -> list string.
Variable default_safety : string.

(** [json.load] on the file of that path: [None] when it cannot be
    opened. *)
Variable sidecar : string -> option metadata.

(** The bytes of a downloaded file. *)
Variable file_bytes : string -> string.

(** [upload_media.main]: the rate-limit flag it hands back. *)
Variable upload : string -> string -> metadata -> bool -> bool.

(** Lines 205-230: the calls made, and whether the loop came to its
    end.  An exception leaves the loop and [main] with it. *)
Fixpoint import_files (site_key : option string) (files : list string)
    (saucenao_limit_reached : bool) : list upload_call * bool :=
  match files with
  | [] => ([], true)
  | file :: rest =>
      match sidecar (file ++ ".json") with
      | None => ([], false)
      | Some m =>
          match annotate search_artist generate_src convert_rating
                         extract_twitter_artist default_safety site_key m with
          | Ok m' =>
              let extension := slice_from 1 (suffix file) in
              let reached := upload (file_bytes file) extension m'
                                    saucenao_limit_reached in
              (UploadCall file extension m' saucenao_limit_reached
                 :: fst (import_files site_key rest reached),
               snd (import_files site_key rest reached))
          | _ => ([], false)
          end
      end
  end.

(** Lines 197-236: the uploads of a run, whether the download
    directory was removed and whether the run reported success. *)
Definition import_run (cfg : config) (urls globbed : list string)
    (dir_exists : bool) : list upload_call * bool * bool :=
  let '(site_key, _, _) := dispatch cfg urls in
  let result := import_files site_key (select_files globbed) false in
  (fst result, snd result && dir_exists, snd result).

End Loop.

End Downloader.

(** ** Tags from a URL: [scrape_url_tags] of [tag_posts.py] *)

Module Scrape.

Import ImportFromUrl.

Definition is_digit (c : ascii) : bool :=
  let n := nat_of_ascii c in ((48 <=? n) && (n <=? 57))%nat.

Definition digit_value (c : ascii) : Z := Z.of_nat (nat_of_ascii c - 48).

(** The digits of a decimal literal, where one underscore may stand
    between two digits. *)
Fixpoint digits_value (acc : Z) (after_digit : bool) (s : string)
  : option Z :=
  match s with
  | EmptyString => if after_digit then Some acc else None
  | String c r =>
      if is_digit c then digits_value (10 * acc + digit_value c) true r
      else if Ascii.eqb c "_"
           then if after_digit then digits_value acc false r else None
           else None
  end.

(** The white space [int] passes over around a literal: tab, line
    feed, vertical tab, form feed, carriage return and the space. *)
Definition is_blank (c : ascii) : bool :=
  let n := nat_of_ascii c in
  (((9 <=? n) && (n <=? 13)) || (n =? 32))%nat.

(** The letters of the ASCII range. *)
Definition is_letter (c : ascii) : bool :=
  let n := nat_of_ascii c in
  (((65 <=? n) && (n <=? 90)) || ((97 <=? n) && (n <=? 122)))%nat.

Fixpoint lstrip (s : string) : string :=
  match s with
  | EmptyString => EmptyString
  | String c r => if is_blank c then lstrip r else s
  end.

(** A character stays when it is no white space or something stays
    after it. *)
Fixpoint rstrip (s : string) : string :=
  match s with
  | EmptyString => EmptyString
  | String c r =>
      match rstrip r with
      | EmptyString => if is_blank c then EmptyString
                       else String c EmptyString
      | kept => String c kept
      end
  end.

(** A reader of decimal literals written in ASCII, for the examples:
    white space around, a sign, digits with single underscores between
    them. *)
Definition ascii_decimal (s : string) : option Z :=
  match rstrip (lstrip s) with
  | String "+" r => digits_value 0 false r
  | String "-" r => option_map Z.opp (digits_value 0 false r)
  | t => digits_value 0 false t
  end.

Section Clients.

(** The built-in [int] on a string: the number the text denotes,
    [None] when it raises [ValueError]. *)
Variable to_int : string -> option Z.

(** [get_tags] after [get_result] for each of the three clients. *)
Variable danbooru_tags : Z -> list string.
Variable gelbooru_tags : string -> list string.
Variable pixiv_tags : string -> list string.

(** [scrape_url_tags], lines 106-118: [None] when [int] raises. *)
Definition scrape_url_tags (url : string) : option (list string) :=
  if contains "danbooru" url then
    match to_int (last (split_on "="%char url) "") with
    | Some post_id => Some (danbooru_tags post_id)
    | None => None
    end
  else if contains "gelbooru" url then Some (gelbooru_tags url)
  else if contains "pixiv" url then Some (pixiv_tags url)
  else Some [].

End Clients.

End Scrape.

(** ** More sample inputs *)

Module MoreSamples.

Import ImportFromUrl Downloader.

(** A configuration with credentials for danbooru and the placeholder
    for gelbooru. *)
Definition cfg : config :=
  fun site_key =>
    if site_key =? "danbooru"
    then Some (fun key => if key =? "user" then Some "me"
                          else if key =? "api_key" then Some "secret"
                          else None)
    else if site_key =? "gelbooru"
    then Some (fun key => if key =? "user" then Some "none"
                          else if key =? "api_key" then Some "none"
                          else None)
    else if site_key =? "pixiv"
    then Some (fun key => if key =? "user" then Some "me"
                          else if key =? "password" then Some "secret"
                          else None)
    else None.

(** A directory where every post has its sidecar. *)
Definition sidecars (path : string) : option metadata :=
  if path =? "/tmp/17.5/1.jpg.json" then Some Samples.abc
  else if path =? "/tmp/17.5/3.png.json" then Some Samples.r18_once
  else None.

Definition bytes_of (path : string) : string := path.

(** An upload that reports the limit reached from the first call on. *)
Definition limit_after_first
    (content extension : string) (m : metadata) (reached : bool) : bool :=
  true.

Definition no_tags_z (post_id : Z) : list string := [].
Definition no_tags (url : string) : list string := [].

End MoreSamples.

(** ** Properties of the primitives *)

Section Primitives.

Lemma mem_In (x : string) (l : list string) : mem x l = true <-> In x l.
Proof.
  unfold mem. rewrite existsb_exists. split.
  - intros [y [Hy Heq]]. apply String.eqb_eq in Heq. now subst.
  - intros H. exists x. split; [assumption | apply String.eqb_refl].
Qed.

Lemma mem_false_In (x : string) (l : list string) :
  mem x l = false <-> ~ In x l.
Proof.
  rewrite <- mem_In. destruct (mem x l); split; congruence.
Qed.

Lemma remove_first_absent (x : string) (l : list string) :
  mem x l = false -> remove_first x l = l.
Proof.
  induction l as [|y r IH]; simpl; [reflexivity|].
  intros H. apply orb_false_iff in H as [Hxy Hr].
  rewrite Hxy, IH by assumption. reflexivity.
Qed.

Lemma remove_first_incl (x t : string) (l : list string) :
  In t (remove_first x l) -> In t l.
Proof.
  induction l as [|y r IH]; simpl; [tauto|].
  destruct (x =? y); simpl; intuition.
Qed.

Lemma remove_first_once (x : string) (l : list string) :
  count_occ string_dec l x = 1 -> ~ In x (remove_first x l).
Proof.
  induction l as [|y r IH]; simpl; [discriminate|].
  destruct (string_dec y x) as [->|Hne].
  - rewrite String.eqb_refl. intros H.
    apply (count_occ_not_In string_dec). lia.
  - intros H. destruct (String.eqb_spec x y) as [->|_]; [congruence|].
    simpl. intros [->|Hin]; [congruence | now apply IH].
Qed.

Lemma dedup_from_In (t : string) (l seen : list string) :
  In t (dedup_from seen l) <-> In t l /\ ~ In t seen.
Proof.
  revert seen. induction l as [|x r IH]; intros seen; simpl; [tauto|].
  destruct (mem x seen) eqn:Hmem.
  - apply mem_In in Hmem. rewrite IH. split.
    + tauto.
    + intros [[->|Hr] Hs]; tauto.
  - apply mem_false_In in Hmem. simpl. rewrite IH. simpl. split.
    + intros [->|[Hr Hs]]; [tauto|]. split; [tauto|]. tauto.
    + intros [[->|Hr] Hs]; [tauto|].
      destruct (string_dec x t) as [->|Hne]; [tauto|]. right. tauto.
Qed.

Lemma dedup_In (t : string) (l : list string) : In t (dedup l) <-> In t l.
Proof. unfold dedup. rewrite dedup_from_In. simpl. tauto. Qed.

Lemma dedup_from_NoDup (l seen : list string) : NoDup (dedup_from seen l).
Proof.
  revert seen. induction l as [|x r IH]; intros seen; simpl.
  - constructor.
  - destruct (mem x seen); [apply IH|]. constructor; [|apply IH].
    rewrite dedup_from_In. simpl. tauto.
Qed.

Lemma dedup_NoDup (l : list string) : NoDup (dedup l).
Proof. apply dedup_from_NoDup. Qed.

Example split_runs : split "  a   b " = ["a"; "b"].
Proof. reflexivity. Qed.

Example replace_in_order : replace "ab" "x" "ababa" = "xxa".
Proof. reflexivity. Qed.

Example comma_list_strips : TagPosts.comma_list "x, y" = ["x"; "y"].
Proof. reflexivity. Qed.

Example suffix_of_hidden_file : ImportFromUrl.suffix "/tmp/.json" = "".
Proof. reflexivity. Qed.

Example suffix_is_the_last : ImportFromUrl.suffix "/tmp/a.tar.gz" = ".gz".
Proof. reflexivity. Qed.

End Primitives.

(** ** The tag normalizer *)

Section SetTags.

Import ImportFromUrl.

Variable search_artist : string -> option string.

Lemma eh_artist_step_john (artist : string) :
  eh_artist_step artist "artist:John Doe" = "John_Doe".
Proof. reflexivity. Qed.

Lemma eh_artist_step_other (artist tag : string) :
  names_artist tag = false -> eh_artist_step artist tag = artist.
Proof.
  unfold names_artist, eh_artist_step, after_colon.
  destruct (startswith "artist" tag); [|reflexivity].
  destruct (find ":"%char tag); [discriminate | reflexivity].
Qed.

Lemma eh_artist_unchanged (after : list string) (artist : string) :
  Forall (fun tag => names_artist tag = false) after ->
  fold_left eh_artist_step after artist = artist.
Proof.
  intros H. revert artist.
  induction H as [|tag r Htag _ IH]; intros artist; simpl; [reflexivity|].
  rewrite eh_artist_step_other by assumption. apply IH.
Qed.

Lemma eh_artist_last (before after : list string) :
  Forall (fun tag => names_artist tag = false) after ->
  eh_artist (TagList (before ++ "artist:John Doe" :: after)) = "John_Doe".
Proof.
  intros H. unfold eh_artist, py_iter.
  rewrite fold_left_app. cbn [fold_left].
  rewrite eh_artist_step_john. now apply eh_artist_unchanged.
Qed.

Lemma artist_tag_fallback (artist : string) :
  truthy_opt (search_artist artist) = false ->
  truthy_opt (search_artist (artist_sanitized artist)) = false ->
  artist_tag search_artist artist = replace " " "_" artist.
Proof.
  intros H1 H2. unfold artist_tag. rewrite H1.
  destruct (search_artist (artist_sanitized artist)) as [c|]; [|reflexivity].
  simpl in H2. now rewrite H2.
Qed.

Lemma drop_r18_list (m : metadata) (l : list string) :
  tags m = Some (TagList l) ->
  exists m1,
    drop_r18 m (TagList l) = Ok (m1, TagList (remove_first "R-18" l)) /\
    tags m1 = Some (TagList (remove_first "R-18" l)) /\
    site m1 = site m /\
    (mem "R-18" l = true -> safety m1 = Some "unsafe").
Proof.
  intros Ht. unfold drop_r18, has_r18.
  destruct (mem "R-18" l) eqn:Hmem.
  - eexists. repeat split.
  - rewrite (remove_first_absent _ _ Hmem). exists m.
    repeat split; [assumption | discriminate].
Qed.

End SetTags.

Import ImportFromUrl.

(** C2, as the code has it.  For an e-hentai record whose last artist
    tag is [artist:John Doe], the text after the colon is [John Doe] and
    the variant the second lookup is made with is [john_doe]; when both
    lookups find nothing, the tag appended to the record's tag list is
    the artist with its spaces turned into underscores and its case
    kept, [John_Doe]. *)
Theorem john_doe_fallback_keeps_case :
  after_colon "artist:John Doe" = Some "John Doe" /\
  artist_sanitized "John Doe" = "john_doe" /\
  artist_sanitized "John_Doe" = "john_doe" /\
  forall (search_artist : string -> option string) (m : metadata)
         (before after : list string),
    site m = Some "e-hentai" ->
    tags m = Some (TagList (before ++ "artist:John Doe" :: after)) ->
    Forall (fun tag => names_artist tag = false) after ->
    truthy_opt (search_artist "John_Doe") = false ->
    truthy_opt (search_artist "john_doe") = false ->
    let kept := remove_first "R-18" (before ++ "artist:John Doe" :: after) in
    exists m',
      set_tags search_artist m
      = Ok (m', check_tags (TagList (kept ++ ["John_Doe"]))) /\
      tags m' = Some (TagList (kept ++ ["John_Doe"])).
Proof.
  repeat split; try reflexivity.
  intros search_artist m before after Hsite Htags Hafter H1 H2 kept.
  unfold set_tags. rewrite Hsite. cbn [is_artist_site].
  change (("e-hentai" =? "fanbox") || ("e-hentai" =? "e-hentai")
          || ("e-hentai" =? "pixiv")) with true. cbv iota.
  rewrite Htags.
  assert (Hartist : find_artist m (TagList (before ++ "artist:John Doe" :: after))
                    = "John_Doe").
  { unfold find_artist. rewrite Hsite. now apply eh_artist_last. }
  rewrite Hartist.
  destruct (drop_r18_list m Htags) as [m1 [Hdrop [Ht1 _]]].
  rewrite Hdrop. cbn [bind].
  unfold append_artist. cbn [truthy_str].
  rewrite (artist_tag_fallback search_artist "John_Doe" H1 H2).
  change (replace " " "_" "John_Doe") with "John_Doe".
  cbn [bind]. unfold checked.
  cbn [tags set_tags_field]. eexists. split; reflexivity.
Qed.

(** The record of [Samples.john_doe] gets [John_Doe]. *)
Lemma john_doe_fallback_keeps_case_witness :
  exists m',
    set_tags Samples.nobody Samples.john_doe
    = Ok (m', check_tags (TagList (["artist:John Doe"] ++ ["John_Doe"]))) /\
    tags m' = Some (TagList (["artist:John Doe"] ++ ["John_Doe"])).
Proof.
  exact (proj2 (proj2 (proj2 john_doe_fallback_keeps_case))
           Samples.nobody Samples.john_doe [] [] eq_refl eq_refl
           (Forall_nil _) eq_refl eq_refl).
Defined.

(** C2 as the spec has it fails: with both lookups empty the appended
    tag is [John_Doe], not the lower-cased [john_doe]. *)
Lemma john_doe_fallback_is_not_lowercased :
  (exists m',
     set_tags Samples.nobody Samples.john_doe
     = Ok (m', ["artist:John Doe"; "John_Doe"]) /\
     tags m' = Some (TagList ["artist:John Doe"; "John_Doe"])) /\
  artist_sanitized (find_artist Samples.john_doe
                      (TagList ["artist:John Doe"])) = "john_doe" /\
  ~ In "john_doe" ["artist:John Doe"; "John_Doe"].
Proof.
  split; [eexists; split; reflexivity|].
  split; [reflexivity|].
  simpl. intros [H|[H|[]]]; discriminate H.
Qed.

(** C3, as the code has it.  For a record whose site is none of
    [fanbox], [e-hentai] and [pixiv]: a string under [tags] (or, with
    [tags] absent, under [tag_string]) is split at white space, stored
    under [tags] and returned through [check_tags], which gives
    [a], [b], [c] for ["a b c"]; with neither field [set_tags] raises
    [KeyError], and it is the caller that never calls it then and sets
    the empty tag list for every site but [twitter]. *)
Theorem other_sites_split_or_raise :
  forall (search_artist : string -> option string)
         (extract_twitter_artist : metadata -> list string) (m : metadata),
    is_artist_site (site m) = false ->
    (forall s, tags m = Some (TagStr s) ->
       set_tags search_artist m
       = Ok (set_tags_field m (TagList (split s)),
             check_tags (TagList (split s)))) /\
    (forall s, tags m = None -> tag_string m = Some (TagStr s) ->
       set_tags search_artist m
       = Ok (set_tags_field m (TagList (split s)),
             check_tags (TagList (split s)))) /\
    (tags m = None -> tag_string m = None ->
       set_tags search_artist m = KeyError /\
       (site m <> Some "twitter" ->
        derive_tags search_artist extract_twitter_artist m
        = Ok (set_tags_field m (TagList [])))) /\
    check_tags (TagList (split "a b c")) = ["a"; "b"; "c"].
Proof.
  intros search_artist extract m Hsite.
  unfold set_tags. rewrite Hsite. unfold split_tags.
  split; [|split; [|split]].
  - intros s Ht. rewrite Ht. reflexivity.
  - intros s Ht Hs. rewrite Ht, Hs. reflexivity.
  - intros Ht Hs. rewrite Ht, Hs. split; [reflexivity|].
    intros Hne. unfold derive_tags. rewrite Hs, Ht.
    destruct (site m) as [n|]; [|reflexivity].
    destruct (String.eqb_spec n "twitter") as [->|Hn]; [congruence|].
    clear - Hn.
    repeat (destruct n as [|[[] [] [] [] [] [] [] []] n];
            try reflexivity; try congruence).
  - reflexivity.
Qed.

(** The three cases on the sample records. *)
Lemma other_sites_split_or_raise_witness :
  set_tags Samples.nobody Samples.abc
  = Ok (set_tags_field Samples.abc (TagList (split "a b c")),
        check_tags (TagList (split "a b c"))) /\
  set_tags Samples.nobody Samples.abc_tag_string
  = Ok (set_tags_field Samples.abc_tag_string (TagList (split "a b c")),
        check_tags (TagList (split "a b c"))) /\
  set_tags Samples.nobody Samples.untagged = KeyError.
Proof.
  split; [|split].
  - exact (proj1 (other_sites_split_or_raise Samples.nobody
                    Samples.no_twitter_artist Samples.abc eq_refl)
             "a b c" eq_refl).
  - exact (proj1 (proj2 (other_sites_split_or_raise Samples.nobody
                           Samples.no_twitter_artist Samples.abc_tag_string
                           eq_refl))
             "a b c" eq_refl eq_refl).
  - exact (proj1 (proj1 (proj2 (proj2
             (other_sites_split_or_raise Samples.nobody
                Samples.no_twitter_artist Samples.untagged eq_refl)))
             eq_refl eq_refl)).
Defined.

(** C3 as the spec has it fails: with neither field, [set_tags] returns
    no list, it raises. *)
Lemma set_tags_without_tags_raises :
  set_tags Samples.nobody Samples.untagged = KeyError /\
  set_tags Samples.nobody Samples.untagged
  <> Ok (set_tags_field Samples.untagged (TagList []), []).
Proof. split; [reflexivity | discriminate]. Qed.

(** Where the rating token comes once in the list and no artist is
    found, the record is marked unsafe and the token is gone from the
    returned list. *)
Lemma single_r18_is_removed
    (search_artist : string -> option string) (m : metadata)
    (l : list string) :
  is_artist_site (site m) = true ->
  tags m = Some (TagList l) ->
  count_occ string_dec l "R-18" = 1 ->
  find_artist m (TagList l) = "" ->
  exists m' out,
    set_tags search_artist m = Ok (m', out) /\
    safety m' = Some "unsafe" /\ ~ In "R-18" out.
Proof.
  intros Hsite Htags Hone Hnone.
  unfold set_tags. rewrite Hsite, Htags, Hnone.
  destruct (drop_r18_list m Htags) as [m1 [Hdrop [Ht1 [_ Hsafe]]]].
  rewrite Hdrop. cbn [bind append_artist truthy_str]. unfold checked.
  rewrite Ht1. exists m1. eexists. split; [reflexivity|]. split.
  - apply Hsafe. apply mem_In. apply (count_occ_In string_dec). lia.
  - unfold check_tags. rewrite dedup_In. cbn [py_iter].
    now apply remove_first_once.
Qed.

(** C6 at the input where the code parts from it: a pixiv record whose
    tag list holds [R-18] twice is marked unsafe, and the list returned
    for it still holds [R-18], for [list.remove] takes the first
    occurrence only. *)
Theorem second_r18_survives :
  exists m',
    set_tags Samples.nobody Samples.r18_twice = Ok (m', ["R-18"]) /\
    safety m' = Some "unsafe" /\
    In "R-18" ["R-18"].
Proof.
  eexists. split; [reflexivity|]. split; [reflexivity|]. now left.
Qed.

(** C7 as the spec has it fails: a Photoshop file is no JSON sidecar
    and yet it is not among the posts. *)
Lemma psd_is_not_uploaded :
  In "/tmp/17.5/2.psd" Samples.downloaded /\
  suffix "/tmp/17.5/2.psd" <> ".json" /\
  ~ In "/tmp/17.5/2.psd" (select_files Samples.downloaded).
Proof.
  split; [simpl; tauto|]. split; [discriminate|].
  simpl. intros [H|[]]. discriminate H.
Qed.

(** C8.  When the parsed arguments hold no URL and no input file,
    [parse_args] prints the help text and leaves with status 1, and so
    does [main] when it is called without URLs. *)
Theorem no_urls_no_input_file_exits_1 :
  forall (a : args) (cookies : option string) (limit_range : string),
    arg_urls a = [] ->
    arg_input_file a = None ->
    ImportFromUrl.parse_args a = ([PrintHelp], Exit 1%Z) /\
    main_inputs [] cookies limit_range a = ([PrintHelp], Exit 1%Z).
Proof.
  intros a cookies limit_range Hurls Hfile.
  unfold main_inputs, ImportFromUrl.parse_args.
  rewrite Hurls, Hfile. split; reflexivity.
Qed.

(** The bare command line. *)
Lemma no_urls_no_input_file_exits_1_witness :
  ImportFromUrl.parse_args Samples.no_arguments = ([PrintHelp], Exit 1%Z) /\
  main_inputs [] None ":10000" Samples.no_arguments
  = ([PrintHelp], Exit 1%Z).
Proof.
  exact (no_urls_no_input_file_exits_1 Samples.no_arguments None ":10000"
           eq_refl eq_refl).
Defined.

(** ** The tag pipeline *)

Import TagPosts.

Lemma apply_removal_In
    (remove_tags : option (list string)) (add_tags : list string)
    (r : tags_ref) (t : string) :
  In t (deref add_tags (apply_removal remove_tags add_tags r)) <->
  In t (deref add_tags r) /\
  match remove_tags with Some rm => ~ In t rm | None => True end.
Proof.
  destruct remove_tags as [[|x rm]|]; cbn [apply_removal]; [simpl; tauto| |tauto].
  cbn [deref]. rewrite filter_In, negb_true_iff, mem_false_In. tauto.
Qed.

Section Merge.

Variable set_order : list string -> list string.

(** Without the implication update a run is one merge per post, and
    [add_tags] is what it was. *)
Lemma run_without_implications
    (getTag : string -> option tag) (tag_eq : tag -> string -> bool)
    (fuel : nat) (o : options) (add_tags : list string) (posts : list post) :
  opt_update_implications o = false ->
  run set_order getTag tag_eq fuel o add_tags posts
  = Ok (map (fun p => Post (post_id p)
                        (merge_tags set_order o add_tags (post_tags p)))
            posts,
        add_tags).
Proof.
  intros Hoff. induction posts as [|p rest IH]; [reflexivity|].
  cbn [run map]. unfold process_post. rewrite Hoff. cbn [bind].
  rewrite IH. reflexivity.
Qed.

Lemma apply_mode_overwrite (add_tags prior : list string) :
  deref add_tags (apply_mode set_order Overwrite add_tags prior)
  = match add_tags with [] => prior | _ :: _ => add_tags end.
Proof. destruct add_tags; reflexivity. Qed.

Lemma apply_mode_append_In (add_tags prior : list string) (t : string) :
  (forall l u, In u (set_order l) <-> In u l) ->
  In t (deref add_tags (apply_mode set_order Append add_tags prior)) <->
  In t prior \/ In t add_tags.
Proof.
  intros Hset. destruct add_tags as [|x r]; cbn [apply_mode truthy_list deref].
  - simpl. tauto.
  - rewrite Hset, in_app_iff. tauto.
Qed.

End Merge.

(** What [parse_args] can hand to the loop: no addition when neither
    [--add-tags] nor [--url] is given, and never an empty removal
    list. *)
Lemma parse_args_no_additions
    (scrape_url_tags : string -> list string) (c : cli)
    (add_tags : list string) (o : options) :
  cli_add_tags c = None -> cli_url c = None ->
  TagPosts.parse_args scrape_url_tags c = Some (add_tags, o) ->
  add_tags = [].
Proof.
  unfold TagPosts.parse_args. intros -> ->.
  destruct (_ && _); [discriminate|]. now intros [= <- _].
Qed.

Lemma split_on_from_nonempty (sep : ascii) (s : string) (cur : list ascii) :
  split_on_from sep s cur <> [].
Proof.
  revert cur. induction s as [|c r IH]; intros cur; cbn; [discriminate|].
  destruct (Ascii.eqb c sep); [discriminate | apply IH].
Qed.

Lemma parse_args_removal_nonempty
    (scrape_url_tags : string -> list string) (c : cli)
    (add_tags : list string) (o : options) :
  TagPosts.parse_args scrape_url_tags c = Some (add_tags, o) ->
  opt_remove_tags o <> Some [].
Proof.
  unfold TagPosts.parse_args.
  destruct (_ && _); [discriminate|]. intros [= _ <-]. cbn.
  destruct (cli_remove_tags c) as [s|]; [|discriminate].
  destruct (truthy_str s); [|discriminate].
  intros [= H]. revert H. apply split_on_from_nonempty.
Qed.

Lemma Forall_map_post (P : post -> Prop) (f : post -> post) (l : list post) :
  (forall p, P (f p)) -> Forall P (map f l).
Proof.
  intros H. induction l; simpl; constructor; auto.
Qed.

(** C4, as the code has it.  In [overwrite] mode with the additions
    [x], [y], no removal list and no implication update, every post is
    sent with exactly the tags [x] and [y], whatever tags it had. *)
Theorem overwrite_gives_exactly_the_additions :
  forall (set_order : list string -> list string)
         (getTag : string -> option tag) (tag_eq : tag -> string -> bool)
         (fuel : nat) (o : options) (x y : string) (posts : list post),
    opt_mode o = Overwrite ->
    opt_remove_tags o = None ->
    opt_update_implications o = false ->
    exists sent,
      run set_order getTag tag_eq fuel o [x; y] posts = Ok (sent, [x; y]) /\
      map post_id sent = map post_id posts /\
      Forall (fun p => forall t, In t (post_tags p) <-> t = x \/ t = y) sent.
Proof.
  intros set_order getTag tag_eq fuel o x y posts Hmode Hrm Hoff.
  eexists. split; [now apply run_without_implications|]. split.
  - rewrite map_map. reflexivity.
  - apply Forall_map_post. intros p t. cbn [post_tags].
    unfold merge_tags. rewrite Hmode, Hrm. simpl. intuition.
Qed.

(** Two posts with different tags both come out as [x], [y]. *)
Lemma overwrite_gives_exactly_the_additions_witness :
  exists sent,
    run dedup Samples.service name_eq 0 Samples.overwrite_only ["x"; "y"]
        [Post 1 ["a"; "b"]; Post 2 []]
    = Ok (sent, ["x"; "y"]) /\
    map post_id sent = map post_id [Post 1 ["a"; "b"]; Post 2 []] /\
    Forall (fun p => forall t, In t (post_tags p) <-> t = "x" \/ t = "y") sent.
Proof.
  exact (overwrite_gives_exactly_the_additions dedup Samples.service name_eq 0
           Samples.overwrite_only "x" "y" [Post 1 ["a"; "b"]; Post 2 []]
           eq_refl eq_refl eq_refl).
Defined.

(** C4 as the spec has it fails once the implication update is asked
    for: [x] implies [z] and [y] implies [r], so the post is sent with
    four tags, whichever way a tag object compares to a name; and as
    the overwritten post and [add_tags] are one list, the next post
    starts from the grown list. *)
Lemma overwrite_then_implications_adds_tags :
  run dedup Samples.service name_eq 10 Samples.overwrite_and_imply ["x"; "y"]
      [Post 1 ["a"]; Post 2 []]
  = Ok ([Post 1 ["x"; "y"; "z"; "r"]; Post 2 ["x"; "y"; "z"; "r"]],
        ["x"; "y"; "z"; "r"]) /\
  run dedup Samples.service object_eq 10 Samples.overwrite_and_imply
      ["x"; "y"] [Post 1 ["a"]; Post 2 []]
  = Ok ([Post 1 ["x"; "y"; "z"; "r"];
         Post 2 ["x"; "y"; "z"; "r"; "z"; "r"]],
        ["x"; "y"; "z"; "r"; "z"; "r"]) /\
  ~ (forall t, In t ["x"; "y"; "z"; "r"] <-> t = "x" \/ t = "y").
Proof.
  split; [reflexivity|]. split; [reflexivity|].
  intros H. destruct (proj1 (H "z")) as [E|E]; [simpl; tauto| |]; discriminate E.
Qed.

(** C5, as the code has it.  In [append] mode without the implication
    update, every post is sent with the tags it had or that are among
    the additions, less those of the removal list. *)
Theorem append_unions_then_removes :
  forall (set_order : list string -> list string)
         (getTag : string -> option tag) (tag_eq : tag -> string -> bool)
         (fuel : nat) (o : options) (add_tags : list string)
         (posts : list post),
    (forall l u, In u (set_order l) <-> In u l) ->
    opt_mode o = Append ->
    opt_update_implications o = false ->
    exists sent,
      run set_order getTag tag_eq fuel o add_tags posts
      = Ok (sent, add_tags) /\
      Forall2
        (fun p p' =>
           post_id p' = post_id p /\
           forall t,
             In t (post_tags p') <->
             (In t (post_tags p) \/ In t add_tags) /\
             match opt_remove_tags o with
             | Some rm => ~ In t rm
             | None => True
             end)
        posts sent.
Proof.
  intros set_order getTag tag_eq fuel o add_tags posts Hset Hmode Hoff.
  eexists. split; [now apply run_without_implications|].
  induction posts as [|p rest IH]; cbn [map]; constructor; [|exact IH].
  split; [reflexivity|]. intros t. cbn [post_tags]. unfold merge_tags.
  rewrite apply_removal_In, Hmode.
  rewrite apply_mode_append_In; [tauto | exact Hset].
Qed.

(** A post tagged [old], [cat] with the addition [x] and the removal
    of [old]. *)
Lemma append_unions_then_removes_witness :
  exists sent,
    run dedup Samples.service name_eq 0 Samples.append_only ["x"]
        [Post 1 ["old"; "cat"]]
    = Ok (sent, ["x"]) /\
    Forall2
      (fun p p' =>
         post_id p' = post_id p /\
         forall t,
           In t (post_tags p') <->
           (In t (post_tags p) \/ In t ["x"]) /\
           match opt_remove_tags Samples.append_only with
           | Some rm => ~ In t rm
           | None => True
           end)
      [Post 1 ["old"; "cat"]] sent.
Proof.
  exact (append_unions_then_removes dedup Samples.service name_eq 0
           Samples.append_only ["x"] [Post 1 ["old"; "cat"]]
           (fun l u => dedup_In u l) eq_refl eq_refl).
Defined.

(** C5 as the spec has it fails once the implication update is asked
    for: the post is sent with [b] and [z], which it did not have and
    which are no additions. *)
Lemma append_then_implications_adds_tags :
  run dedup Samples.service name_eq 10 Samples.append_and_imply ["x"]
      [Post 1 ["a"]]
  = Ok ([Post 1 ["a"; "x"; "b"; "z"]], ["x"]) /\
  In "z" ["a"; "x"; "b"; "z"] /\
  ~ (In "z" ["a"] \/ In "z" ["x"]).
Proof.
  split; [reflexivity|]. split; [simpl; tauto|].
  simpl. intros [[H|[]]|[H|[]]]; discriminate H.
Qed.

(** C9.  In [overwrite] mode the tags of a post are replaced when there
    is an addition and only then: with no addition the overwrite step
    leaves them as they were, and a run with neither removal list nor
    implication update sends every post unchanged. *)
Theorem overwrite_without_additions_keeps_tags :
  forall (set_order : list string -> list string)
         (getTag : string -> option tag) (tag_eq : tag -> string -> bool)
         (fuel : nat) (o : options) (posts : list post),
    opt_mode o = Overwrite ->
    (forall add_tags prior,
       deref add_tags (apply_mode set_order (opt_mode o) add_tags prior)
       = match add_tags with [] => prior | _ :: _ => add_tags end) /\
    (forall prior, apply_mode set_order (opt_mode o) [] prior = Own prior) /\
    (opt_remove_tags o = None -> opt_update_implications o = false ->
     run set_order getTag tag_eq fuel o [] posts = Ok (posts, [])).
Proof.
  intros set_order getTag tag_eq fuel o posts Hmode. rewrite Hmode.
  split; [intros; apply apply_mode_overwrite|]. split; [reflexivity|].
  intros Hrm Hoff. rewrite run_without_implications by assumption.
  f_equal. f_equal. unfold merge_tags. rewrite Hmode, Hrm. cbn.
  induction posts as [|[id l] rest IH]; cbn; [reflexivity|].
  now rewrite IH.
Qed.

(** Two tagged posts and no addition. *)
Lemma overwrite_without_additions_keeps_tags_witness :
  run dedup Samples.service name_eq 0 Samples.overwrite_only []
      [Post 1 ["a"; "b"]; Post 2 ["c"]]
  = Ok ([Post 1 ["a"; "b"]; Post 2 ["c"]], []).
Proof.
  exact (proj2 (proj2 (overwrite_without_additions_keeps_tags dedup
                         Samples.service name_eq 0 Samples.overwrite_only
                         [Post 1 ["a"; "b"]; Post 2 ["c"]] eq_refl))
           eq_refl eq_refl).
Defined.

(** C10, as the code has it.  In either mode, without the implication
    update, a tag that is both among the additions and in the removal
    list is on no post that is sent. *)
Theorem added_and_removed_tag_is_absent :
  forall (set_order : list string -> list string)
         (getTag : string -> option tag) (tag_eq : tag -> string -> bool)
         (fuel : nat) (o : options) (add_tags rm : list string)
         (posts : list post) (t : string),
    opt_remove_tags o = Some rm ->
    opt_update_implications o = false ->
    In t add_tags ->
    In t rm ->
    exists sent,
      run set_order getTag tag_eq fuel o add_tags posts
      = Ok (sent, add_tags) /\
      map post_id sent = map post_id posts /\
      Forall (fun p => ~ In t (post_tags p)) sent.
Proof.
  intros set_order getTag tag_eq fuel o add_tags rm posts t Hrm Hoff _ Hin.
  eexists. split; [now apply run_without_implications|]. split.
  - rewrite map_map. reflexivity.
  - apply Forall_map_post. intros p. cbn [post_tags]. unfold merge_tags.
    rewrite apply_removal_In, Hrm. tauto.
Qed.

(** The tag [r], added and removed, in [overwrite] mode. *)
Lemma added_and_removed_tag_is_absent_witness :
  exists sent,
    run dedup Samples.service name_eq 0 Samples.remove_only ["y"; "r"]
        [Post 1 ["a"; "r"]]
    = Ok (sent, ["y"; "r"]) /\
    map post_id sent = map post_id [Post 1 ["a"; "r"]] /\
    Forall (fun p => ~ In "r" (post_tags p)) sent.
Proof.
  exact (added_and_removed_tag_is_absent dedup Samples.service name_eq 0
           Samples.remove_only ["y"; "r"] [Post 1 ["a"; "r"]] "r"
           eq_refl eq_refl (or_intror (or_introl eq_refl))
           (or_introl eq_refl)).
Defined.

(** C10 as the spec has it fails once the implication update is asked
    for: [r] is added and removed, and then appended again because the
    added [y] implies it. *)
Lemma removed_tag_comes_back_by_implication :
  In "r" ["y"; "r"] /\
  opt_remove_tags Samples.remove_and_imply = Some ["r"] /\
  run dedup Samples.service name_eq 10 Samples.remove_and_imply ["y"; "r"]
      [Post 1 ["a"]]
  = Ok ([Post 1 ["a"; "y"; "b"; "r"]], ["y"; "r"]) /\
  In "r" ["a"; "y"; "b"; "r"].
Proof.
  split; [simpl; tauto|]. split; [reflexivity|]. split; [reflexivity|].
  simpl; tauto.
Qed.

(** ** The implication update *)

Section Implications.

Variable getTag : string -> option tag.

(** The loops only ever append. *)
Lemma append_implications_extends
    (tag_eq : tag -> string -> bool) (imps tags tags' : list string) :
  append_implications getTag tag_eq tags imps = Ok tags' ->
  exists more, tags' = (tags ++ more)%list.
Proof.
  revert tags. induction imps as [|imp rest IH]; intros tags; cbn.
  - intros [= <-]. exists []. now rewrite app_nil_r.
  - destruct (getTag imp) as [ti|]; [|discriminate].
    intros H. apply IH in H as [more ->].
    destruct (tag_in tag_eq ti tags).
    + now exists more.
    + exists (primary_name ti :: more). now rewrite <- app_assoc.
Qed.

Lemma expand_extends
    (tag_eq : tag -> string -> bool) (fuel i : nat)
    (tags tags' : list string) :
  expand getTag tag_eq fuel i tags = Ok tags' ->
  exists more, tags' = (tags ++ more)%list.
Proof.
  revert i tags. induction fuel as [|fuel IH]; intros i tags; cbn.
  - discriminate.
  - destruct (nth_error tags i) as [name|].
    + destruct (getTag name) as [st|]; [|discriminate].
      destruct (append_implications getTag tag_eq tags (implications st))
        as [tags1| | | |] eqn:H1; try discriminate.
      cbn. intros H. apply IH in H as [more2 ->].
      apply append_implications_extends in H1 as [more1 ->].
      exists (more1 ++ more2)%list. now rewrite app_assoc.
    + intros [= <-]. exists []. now rewrite app_nil_r.
Qed.

(** When tag objects compare by name, the inner loop leaves every
    implied tag on the list and repeats none. *)
Lemma append_implications_by_name_In
    (imps tags tags' : list string) (imp : string) (ti : tag) :
  append_implications getTag name_eq tags imps = Ok tags' ->
  In imp imps -> getTag imp = Some ti -> In (primary_name ti) tags'.
Proof.
  revert tags. induction imps as [|j rest IH]; intros tags; cbn; [tauto|].
  destruct (getTag j) as [tj|] eqn:Hj; [|discriminate].
  intros H [->|Hin] Hti.
  - rewrite Hj in Hti. injection Hti as ->.
    apply append_implications_extends in H as [more ->].
    apply in_or_app. left.
    change (tag_in name_eq ti tags) with (mem (primary_name ti) tags).
    destruct (mem (primary_name ti) tags) eqn:Hmem.
    + now apply mem_In.
    + apply in_or_app. right. now left.
  - eapply IH; eassumption.
Qed.

Lemma append_implications_by_name_NoDup (imps tags tags' : list string) :
  NoDup tags ->
  append_implications getTag name_eq tags imps = Ok tags' -> NoDup tags'.
Proof.
  revert tags. induction imps as [|j rest IH]; intros tags Hnd; cbn.
  - now intros [= <-].
  - destruct (getTag j) as [tj|]; [|discriminate].
    apply IH.
    change (tag_in name_eq tj tags) with (mem (primary_name tj) tags).
    destruct (mem (primary_name tj) tags) eqn:Hmem; [assumption|].
    apply mem_false_In in Hmem.
    apply NoDup_app; [assumption | repeat constructor; simpl; tauto |].
    intros u Hu [<-|[]]. contradiction.
Qed.

Lemma expand_by_name_NoDup (fuel i : nat) (tags tags' : list string) :
  NoDup tags -> expand getTag name_eq fuel i tags = Ok tags' -> NoDup tags'.
Proof.
  revert i tags. induction fuel as [|fuel IH]; intros i tags Hnd; cbn.
  - discriminate.
  - destruct (nth_error tags i) as [name|]; [|now intros [= <-]].
    destruct (getTag name) as [st|]; [|discriminate].
    destruct (append_implications getTag name_eq tags (implications st))
      as [tags1| | | |] eqn:H1; try discriminate.
    cbn. apply IH. eapply append_implications_by_name_NoDup; eassumption.
Qed.

(** And the outer loop leaves, for every tag it visits, all the tags
    it implies on the list. *)
Lemma expand_by_name_closed (fuel i : nat) (tags tags' : list string) :
  expand getTag name_eq fuel i tags = Ok tags' ->
  forall j name st imp ti,
    i <= j -> nth_error tags' j = Some name -> getTag name = Some st ->
    In imp (implications st) -> getTag imp = Some ti ->
    In (primary_name ti) tags'.
Proof.
  revert i tags. induction fuel as [|fuel IH]; intros i tags; cbn.
  - discriminate.
  - destruct (nth_error tags i) as [name0|] eqn:Hi.
    + destruct (getTag name0) as [st0|] eqn:H0; [|discriminate].
      destruct (append_implications getTag name_eq tags (implications st0))
        as [tags1| | | |] eqn:H1; try discriminate.
      cbn. intros H j name st imp ti Hle Hj Hst Himp Hti.
      destruct (Nat.eq_dec j i) as [->|Hne].
      * pose proof (append_implications_extends _ _ _ H1) as [m1 E1].
        pose proof (expand_extends _ _ _ _ H) as [m2 E2].
        assert (Hname : nth_error tags' i = Some name0).
        { rewrite E2, E1, <- app_assoc.
          rewrite nth_error_app1; [assumption|].
          apply nth_error_Some. congruence. }
        rewrite Hname in Hj. injection Hj as <-.
        rewrite H0 in Hst. injection Hst as <-.
        rewrite E2. apply in_or_app. left.
        eapply append_implications_by_name_In; eassumption.
      * eapply (IH (S i) tags1 H j); try eassumption. lia.
    + intros [= <-] j name st imp ti Hle Hj.
      apply nth_error_None in Hi.
      assert (j < List.length tags) by (apply nth_error_Some; congruence). lia.
Qed.

(** When they compare as plain objects, every implication is appended,
    present or not. *)
Lemma append_implications_by_object_length
    (imps tags tags' : list string) :
  append_implications getTag object_eq tags imps = Ok tags' ->
  List.length tags' = List.length tags + List.length imps.
Proof.
  revert tags. induction imps as [|j rest IH]; intros tags; cbn.
  - intros [= <-]. lia.
  - destruct (getTag j) as [tj|]; [|discriminate].
    replace (tag_in object_eq tj tags) with false.
    + intros H. apply IH in H. rewrite H, length_app. simpl. lia.
    + unfold tag_in, object_eq. induction tags; simpl; auto.
Qed.

End Implications.

(** C1 at the inputs where the code parts from it.  The membership test
    of line 162 holds a tag object against a list of names, and an
    object that defines no equality of its own equals no string.  So
    [b], implied by [a] and already on the post, is appended again, and
    [z], implied by both [x] and [c] and not on the post, is appended
    twice. *)
Theorem present_implication_is_appended_again :
  run dedup Samples.service object_eq 10 Samples.imply_only []
      [Post 1 ["a"; "b"]]
  = Ok ([Post 1 ["a"; "b"; "b"]], []) /\
  count_occ string_dec ["a"; "b"; "b"] "b" = 2 /\
  run dedup Samples.service object_eq 10 Samples.imply_only []
      [Post 2 ["x"; "c"]]
  = Ok ([Post 2 ["x"; "c"; "z"; "z"]], []) /\
  count_occ string_dec ["x"; "c"; "z"; "z"] "z" = 2.
Proof. repeat split. Qed.

(** ** The loop of the tag pipeline as a whole *)

Section TagLoop.

Variable set_order : list string -> list string.
Variable getTag : string -> option tag.
Variable tag_eq : tag -> string -> bool.

Lemma process_post_inv
    (fuel : nat) (o : options) (add_tags add_tags' : list string)
    (p p' : post) :
  process_post set_order getTag tag_eq fuel o add_tags p
  = Ok (add_tags', p') ->
  post_id p' = post_id p /\
  exists more,
    post_tags p' = (merge_tags set_order o add_tags (post_tags p) ++ more)%list /\
    (opt_update_implications o = false -> more = []) /\
    (add_tags' = add_tags \/
     add_tags' = post_tags p' /\
     apply_removal (opt_remove_tags o) add_tags
       (apply_mode set_order (opt_mode o) add_tags (post_tags p)) = Shared).
Proof.
  unfold process_post, merge_tags.
  set (r := apply_removal _ _ _).
  destruct (opt_update_implications o).
  - destruct (expand getTag tag_eq fuel 0 (deref add_tags r))
      as [tags'| | | |] eqn:He; try discriminate.
    cbn [bind]. intros [= <- <-]. split; [reflexivity|].
    apply expand_extends in He as [more ->]. exists more.
    split; [reflexivity|]. split; [discriminate|].
    destruct r; [now left | right; split; reflexivity].
  - intros [= <- <-]. split; [reflexivity|]. exists [].
    split; [cbn; now rewrite app_nil_r|]. split; [reflexivity | now left].
Qed.

(** When [post.tags] is the post's own list after the merge, the round
    leaves [add_tags] alone. *)
Lemma merged_is_own (o : options) (add_tags prior : list string) :
  opt_mode o = Append \/ add_tags = [] \/
  (exists x rm, opt_remove_tags o = Some (x :: rm)) ->
  apply_removal (opt_remove_tags o) add_tags
    (apply_mode set_order (opt_mode o) add_tags prior) <> Shared.
Proof.
  intros [Hm|[->|[x [rm Hr]]]].
  - rewrite Hm. cbn. destruct (truthy_list add_tags);
      destruct (opt_remove_tags o) as [[|? ?]|]; discriminate.
  - destruct (opt_mode o); cbn;
      destruct (opt_remove_tags o) as [[|? ?]|]; discriminate.
  - rewrite Hr. discriminate.
Qed.

End TagLoop.

(** X1.  A run that comes to its end has sent one update per post, in
    the order of the posts and under their ids, whatever the options
    are. *)
Theorem run_sends_each_post_once :
  forall (set_order : list string -> list string)
         (getTag : string -> option tag) (tag_eq : tag -> string -> bool)
         (fuel : nat) (o : options) (posts : list post)
         (add_tags final : list string) (sent : list post),
    run set_order getTag tag_eq fuel o add_tags posts = Ok (sent, final) ->
    map post_id sent = map post_id posts.
Proof.
  intros set_order getTag tag_eq fuel o posts.
  induction posts as [|p rest IH]; intros add_tags final sent; cbn [run].
  - now intros [= <- _].
  - destruct (process_post set_order getTag tag_eq fuel o add_tags p)
      as [[a' p']| | | |] eqn:Hp; try discriminate.
    cbn [bind].
    destruct (run set_order getTag tag_eq fuel o a' rest)
      as [[sent' final']| | | |] eqn:Hr; try discriminate.
    cbn [bind]. intros [= <- _]. cbn [map].
    apply process_post_inv in Hp as [-> _]. f_equal. eapply IH; eassumption.
Qed.

Lemma run_sends_each_post_once_witness :
  map post_id [Post 1 ["x"; "y"; "z"; "r"]; Post 2 ["x"; "y"; "z"; "r"]]
  = map post_id [Post 1 ["a"]; Post 2 []].
Proof.
  exact (@run_sends_each_post_once dedup Samples.service name_eq 10
           Samples.overwrite_and_imply [Post 1 ["a"]; Post 2 []]
           ["x"; "y"] ["x"; "y"; "z"; "r"]
           [Post 1 ["x"; "y"; "z"; "r"]; Post 2 ["x"; "y"; "z"; "r"]]
           eq_refl).
Defined.

(** X2.  The list of additions is the same after a run as before it
    whenever the mode is [append], or there is no addition, or there
    is a removal list, or the implication update is off: only an
    overwrite followed by the implication update writes into it. *)
Theorem additions_are_kept :
  forall (set_order : list string -> list string)
         (getTag : string -> option tag) (tag_eq : tag -> string -> bool)
         (fuel : nat) (o : options) (posts : list post)
         (add_tags final : list string) (sent : list post),
    opt_mode o = Append \/ add_tags = [] \/
    (exists x rm, opt_remove_tags o = Some (x :: rm)) \/
    opt_update_implications o = false ->
    run set_order getTag tag_eq fuel o add_tags posts = Ok (sent, final) ->
    final = add_tags.
Proof.
  intros set_order getTag tag_eq fuel o posts add_tags final sent Hc.
  revert sent. induction posts as [|p rest IH]; intros sent; cbn [run].
  - now intros [= _ <-].
  - destruct (process_post set_order getTag tag_eq fuel o add_tags p)
      as [[a' p']| | | |] eqn:Hp; try discriminate.
    cbn [bind].
    assert (Ha : a' = add_tags).
    { destruct Hc as [H|[H|[H|H]]].
      - apply process_post_inv in Hp as [_ [more [_ [_ [E|[_ E]]]]]];
          [assumption|]. exfalso. revert E. apply merged_is_own. tauto.
      - apply process_post_inv in Hp as [_ [more [_ [_ [E|[_ E]]]]]];
          [assumption|]. exfalso. revert E. apply merged_is_own. tauto.
      - apply process_post_inv in Hp as [_ [more [_ [_ [E|[_ E]]]]]];
          [assumption|]. exfalso. revert E. apply merged_is_own. tauto.
      - unfold process_post in Hp. rewrite H in Hp. now injection Hp. }
    subst a'.
    destruct (run set_order getTag tag_eq fuel o add_tags rest)
      as [[sent' final']| | | |] eqn:Hr; try discriminate.
    cbn [bind]. intros [= _ <-]. eapply IH. reflexivity.
Qed.

Lemma additions_are_kept_witness : ["x"] = ["x"].
Proof.
  exact (@additions_are_kept dedup Samples.service name_eq 10
           Samples.append_and_imply [Post 1 ["a"]] ["x"] ["x"]
           [Post 1 ["a"; "x"; "b"; "z"]] (or_introl eq_refl) eq_refl).
Defined.

(** X3.  With no addition the mode makes no difference: an [append]
    run and an [overwrite] run with the same removal list and the same
    flags send the same posts, or fail alike. *)
Theorem mode_is_idle_without_additions :
  forall (set_order : list string -> list string)
         (getTag : string -> option tag) (tag_eq : tag -> string -> bool)
         (fuel : nat) (remove_tags : option (list string))
         (update_implications : bool) (url : option string)
         (query : string) (posts : list post),
    run set_order getTag tag_eq fuel
        (Options remove_tags update_implications url Append query) [] posts
    = run set_order getTag tag_eq fuel
        (Options remove_tags update_implications url Overwrite query) []
        posts.
Proof.
  intros set_order getTag tag_eq fuel rm upd url query posts.
  induction posts as [|p rest IH]; [reflexivity|].
  cbn [run].
  change (process_post set_order getTag tag_eq fuel
            (Options rm upd url Overwrite query) [] p)
    with (process_post set_order getTag tag_eq fuel
            (Options rm upd url Append query) [] p).
  destruct (process_post set_order getTag tag_eq fuel
              (Options rm upd url Append query) [] p)
    as [[a' p']| | | |] eqn:Hp; try reflexivity.
  cbn [bind].
  assert (Ha : a' = []).
  { apply process_post_inv in Hp as [_ [more [_ [_ [E|[_ E]]]]]];
      [assumption|]. exfalso. revert E. apply merged_is_own. tauto. }
  subst a'. now rewrite IH.
Qed.

(** X4.  Whatever the options, the tags a post is sent with begin with
    the list the mode and the removal left, in its order: the
    implication update only appends, and without it nothing is
    appended. *)
Theorem implication_update_only_appends :
  forall (set_order : list string -> list string)
         (getTag : string -> option tag) (tag_eq : tag -> string -> bool)
         (fuel : nat) (o : options) (add_tags add_tags' : list string)
         (p p' : post),
    process_post set_order getTag tag_eq fuel o add_tags p
    = Ok (add_tags', p') ->
    exists more,
      post_tags p'
      = (merge_tags set_order o add_tags (post_tags p) ++ more)%list /\
      (opt_update_implications o = false -> more = []).
Proof.
  intros set_order getTag tag_eq fuel o add_tags add_tags' p p' H.
  apply process_post_inv in H as [_ [more [H1 [H2 _]]]].
  exists more. split; assumption.
Qed.

Lemma implication_update_only_appends_witness :
  exists more,
    post_tags (Post 1 ["a"; "y"; "b"; "r"])
    = (merge_tags dedup Samples.remove_and_imply ["y"; "r"]
         (post_tags (Post 1 ["a"])) ++ more)%list /\
    (opt_update_implications Samples.remove_and_imply = false -> more = []).
Proof.
  exact (@implication_update_only_appends dedup Samples.service name_eq 10
           Samples.remove_and_imply ["y"; "r"] ["y"; "r"] (Post 1 ["a"])
           (Post 1 ["a"; "y"; "b"; "r"]) eq_refl).
Defined.

(** X5.  In [overwrite] mode with at least one addition and no removal
    list, what is sent does not depend on the tags the posts had, with
    or without the implication update: two lists of posts with the
    same ids give the same run. *)
Theorem overwrite_forgets_prior_tags :
  forall (set_order : list string -> list string)
         (getTag : string -> option tag) (tag_eq : tag -> string -> bool)
         (fuel : nat) (o : options) (posts posts' : list post)
         (add_tags : list string),
    opt_mode o = Overwrite ->
    opt_remove_tags o = None ->
    add_tags <> [] ->
    map post_id posts = map post_id posts' ->
    run set_order getTag tag_eq fuel o add_tags posts
    = run set_order getTag tag_eq fuel o add_tags posts'.
Proof.
  intros set_order getTag tag_eq fuel o posts posts' add_tags Hm Hr.
  revert posts' add_tags.
  induction posts as [|p rest IH]; intros [|q rest'] add_tags Hne Hids;
    try discriminate; [reflexivity|].
  cbn [map] in Hids. injection Hids as Hid Hids. cbn [run].
  assert (Hpq : process_post set_order getTag tag_eq fuel o add_tags p
                = process_post set_order getTag tag_eq fuel o add_tags q).
  { unfold process_post. rewrite Hm, Hr, Hid.
    destruct add_tags; [contradiction | reflexivity]. }
  rewrite <- Hpq.
  destruct (process_post set_order getTag tag_eq fuel o add_tags p)
    as [[a' p']| | | |] eqn:Hp; try reflexivity.
  cbn [bind]. rewrite (IH rest' a'); [reflexivity| |assumption].
  apply process_post_inv in Hp as [_ [more [Hp' [_ [->|[-> _]]]]]];
    [assumption|].
  rewrite Hp'. unfold merge_tags. rewrite Hm, Hr.
  destruct add_tags; [contradiction | discriminate].
Qed.

Lemma overwrite_forgets_prior_tags_witness :
  run dedup Samples.service object_eq 10 Samples.overwrite_and_imply
      ["x"; "y"] [Post 1 ["a"]; Post 2 []]
  = run dedup Samples.service object_eq 10 Samples.overwrite_and_imply
      ["x"; "y"] [Post 1 []; Post 2 ["b"; "c"]].
Proof.
  apply overwrite_forgets_prior_tags;
    [reflexivity | reflexivity | discriminate | reflexivity].
Defined.

(** ** What [set_tags] keeps and what the loop body hands on *)

(** The fields a returning call leaves as they were, and what it does
    to the other two. *)
Lemma set_tags_frame :
  forall (search_artist : string -> option string) (m m' : metadata)
         (out : list string),
    set_tags search_artist m = Ok (m', out) ->
    site m' = site m /\ source m' = source m /\ rating m' = rating m /\
    tag_string m' = tag_string m /\ user_name m' = user_name m /\
    (exists v, tags m' = Some v /\ out = check_tags v) /\
    (safety m' = safety m \/ safety m' = Some "unsafe") /\
    (is_artist_site (site m) = false -> safety m' = safety m).
Proof.
  intros search_artist m m' out. unfold set_tags.
  destruct (is_artist_site (site m)).
  - destruct (tags m) as [v|] eqn:Ht; [|discriminate].
    unfold drop_r18, append_artist, checked.
    destruct (has_r18 v), v as [l|s]; cbn [bind]; try discriminate;
      destruct (truthy_str (find_artist m _)); cbn [bind tags set_tags_field];
      try discriminate.
    all: try rewrite Ht.
    all: intros [= <- <-]; cbn.
    all: repeat split; eauto; try discriminate.
  - unfold split_tags, checked.
    destruct (tags m) as [[l|s]|] eqn:Ht; cbn [bind tags set_tags_field];
      [| |destruct (tag_string m) as [[l|s]|] eqn:Hs;
            cbn [bind tags set_tags_field]];
      try rewrite Ht; try discriminate.
    all: intros [= <- <-]; cbn.
    all: repeat split; eauto; try discriminate.
Qed.

(** X6.  A call of [set_tags] that returns has touched two fields at
    most: [tags], whose final value is what the returned list was
    checked from, and [safety], which it can only set to [unsafe] and
    does not set at all for a site other than the three artist
    sites. *)
Theorem set_tags_touches_tags_and_safety :
  forall (search_artist : string -> option string) (m m' : metadata)
         (out : list string),
    set_tags search_artist m = Ok (m', out) ->
    site m' = site m /\ source m' = source m /\ rating m' = rating m /\
    tag_string m' = tag_string m /\ user_name m' = user_name m /\
    (exists v, tags m' = Some v /\ out = check_tags v) /\
    (safety m' = safety m \/ safety m' = Some "unsafe") /\
    (is_artist_site (site m) = false -> safety m' = safety m).
Proof. exact set_tags_frame. Qed.

Lemma set_tags_touches_tags_and_safety_witness :
  exists m',
    set_tags Samples.nobody Samples.r18_once = Ok (m', ["cat"]) /\
    site m' = site Samples.r18_once /\
    (safety m' = safety Samples.r18_once \/ safety m' = Some "unsafe").
Proof.
  eexists. split; [reflexivity|].
  pose proof (@set_tags_touches_tags_and_safety Samples.nobody
                Samples.r18_once _ ["cat"] eq_refl) as H.
  split; [exact (proj1 H) | exact (proj1 (proj2 (proj2 (proj2 (proj2
    (proj2 (proj2 H)))))))].
Defined.

Lemma chars_append (s t : string) :
  list_ascii_of_string (s ++ t)
  = (list_ascii_of_string s ++ list_ascii_of_string t)%list.
Proof. induction s as [|c r IH]; cbn; [reflexivity | now rewrite IH]. Qed.

(** Replacing a character leaves none of it behind, unless the
    replacement brings it. *)
Lemma replace_char_gone (a : ascii) (new s : string) :
  ~ In a (list_ascii_of_string new) ->
  ~ In a (list_ascii_of_string (replace (String a EmptyString) new s)).
Proof.
  intros Hnew. unfold replace. induction s as [|c r IH]; cbn; [tauto|].
  destruct (ascii_dec a c) as [->|Hne]; cbn.
  - replace (String.prefix "" r) with true by (now destruct r).
    rewrite chars_append, in_app_iff. tauto.
  - intros [E|E]; [congruence | tauto].
Qed.

Lemma eh_artist_step_no_space (artist tag : string) :
  ~ In " "%char (list_ascii_of_string artist) ->
  ~ In " "%char (list_ascii_of_string (eh_artist_step artist tag)).
Proof.
  intros H. unfold eh_artist_step.
  destruct (startswith "artist" tag); [|assumption].
  destruct (after_colon tag); [|assumption].
  apply replace_char_gone. cbn. intros [E|[]]. discriminate E.
Qed.

Lemma eh_artist_fold_no_space (l : list string) (artist : string) :
  ~ In " "%char (list_ascii_of_string artist) ->
  ~ In " "%char (list_ascii_of_string (fold_left eh_artist_step l artist)).
Proof.
  revert artist. induction l as [|tag r IH]; intros artist H; cbn;
    [assumption|]. apply IH. now apply eh_artist_step_no_space.
Qed.

(** X7.  On an e-hentai record the artist comes from the last tag that
    starts with [artist] and holds a colon: it is the text after that
    tag's first colon with every space turned into an underscore.  And
    whatever the tags are, the artist found holds no space. *)
Theorem eh_artist_is_the_last_named :
  forall (before after : list string) (tag a : string),
    names_artist tag = true ->
    after_colon tag = Some a ->
    Forall (fun t => names_artist t = false) after ->
    eh_artist (TagList (before ++ tag :: after)) = replace " " "_" a /\
    forall v, ~ In " "%char (list_ascii_of_string (eh_artist v)).
Proof.
  intros before after tag a Hn Ha Hafter. split.
  - unfold eh_artist, py_iter. rewrite fold_left_app. cbn [fold_left].
    rewrite eh_artist_unchanged by assumption.
    unfold eh_artist_step. unfold names_artist in Hn.
    apply andb_true_iff in Hn as [-> _]. now rewrite Ha.
  - intros v. unfold eh_artist. apply eh_artist_fold_no_space. cbn. tauto.
Qed.

Lemma eh_artist_is_the_last_named_witness :
  eh_artist (TagList (["artist:one"] ++ "artist:Jane Roe" :: ["female:x"]))
  = replace " " "_" "Jane Roe".
Proof.
  exact (proj1 (@eh_artist_is_the_last_named ["artist:one"] ["female:x"]
                  "artist:Jane Roe" "Jane Roe" eq_refl eq_refl
                  (Forall_cons "female:x"
                     (eq_refl : names_artist "female:x" = false)
                     (Forall_nil _)))).
Defined.

(** X9.  When the loop body has annotated a sidecar, the record it
    hands to the upload carries the site the run was started for, a
    source, a safety, and its tags as a list, whatever shape they had
    in the sidecar. *)
Theorem annotated_record_is_complete :
  forall (search_artist : string -> option string)
         (generate_src : metadata -> string)
         (convert_rating : string -> string)
         (extract_twitter_artist : metadata -> list string)
         (default_safety : string) (site_key : option string)
         (m m' : metadata),
    annotate search_artist generate_src convert_rating
             extract_twitter_artist default_safety site_key m = Ok m' ->
    site m' = site_key /\
    source m' = Some (generate_src (set_site m site_key)) /\
    (exists s, safety m' = Some s) /\
    (exists l, tags m' = Some (TagList l)).
Proof.
  intros sa gs cr ex ds site_key m m'. unfold annotate.
  set (m0 := set_source (set_site m site_key) (gs (set_site m site_key))).
  set (m1 := match rating m0 with
             | Some r => set_safety m0 (cr r)
             | None => set_safety m0 ds
             end).
  assert (H1 : site m1 = site_key /\
               source m1 = Some (gs (set_site m site_key)) /\
               exists s, safety m1 = Some s).
  { subst m1. destruct (rating m0); cbn; eauto. }
  destruct H1 as [Hsite [Hsrc [s Hs]]].
  unfold derive_tags.
  assert (Hset : bind (set_tags sa m1)
                   (fun '(m2, l) => Ok (set_tags_field m2 (TagList l)))
                 = Ok m' ->
                 site m' = site_key /\
                 source m' = Some (gs (set_site m site_key)) /\
                 (exists s0, safety m' = Some s0) /\
                 (exists l, tags m' = Some (TagList l))).
  { destruct (set_tags sa m1) as [[m2 l]| | | |] eqn:E; try discriminate.
    cbn [bind]. intros [= <-].
    apply set_tags_frame in E
      as [E1 [E2 [_ [_ [_ [_ [[E3|E3] _]]]]]]]; cbn;
      rewrite E1, E2; repeat split; eauto.
    rewrite E3, Hs. eauto. }
  destruct (tags m1) as [v|], (tag_string m1) as [w|]; try exact Hset.
  destruct (site m1) as [n|] eqn:Hn.
  - assert (Hboth : forall l, Ok (set_tags_field m1 (TagList l)) = Ok m' ->
              site m' = site_key /\
              source m' = Some (gs (set_site m site_key)) /\
              (exists s0, safety m' = Some s0) /\
              (exists l0, tags m' = Some (TagList l0))).
    { intros l [= <-]. cbn. rewrite Hn. repeat split; eauto. }
    destruct (String.eqb_spec n "twitter") as [->|Hne]; [apply Hboth|].
    clear - Hboth Hne.
    repeat (destruct n as [|[[] [] [] [] [] [] [] []] n];
            try apply Hboth; try congruence).
  - intros [= <-]. cbn. rewrite Hn. repeat split; eauto.
Qed.

Lemma annotated_record_is_complete_witness :
  exists m',
    annotate Samples.nobody Samples.no_source Samples.same_rating
             Samples.no_twitter_artist "safe" (Some "danbooru") Samples.abc
    = Ok m' /\
    site m' = Some "danbooru" /\
    (exists l, tags m' = Some (TagList l)).
Proof.
  eexists. split; [reflexivity|].
  pose proof (@annotated_record_is_complete Samples.nobody Samples.no_source
                Samples.same_rating Samples.no_twitter_artist "safe"
                (Some "danbooru") Samples.abc _ eq_refl) as H.
  split; [exact (proj1 H) | exact (proj2 (proj2 (proj2 H)))].
Defined.

(** ** The downloader call *)

Import Downloader.

Lemma find_first {A : Type} (f : A -> bool) (l : list A) (x : A) :
  List.find f l = Some x ->
  exists l1 l2,
    l = (l1 ++ x :: l2)%list /\ f x = true /\
    forall y, In y l1 -> f y = false.
Proof.
  induction l as [|a r IH]; cbn; [discriminate|].
  destruct (f a) eqn:Ha.
  - intros [= <-]. exists [], r. repeat split; [assumption|]. intros y [].
  - intros H. destruct (IH H) as [l1 [l2 [-> [Hx Hl1]]]].
    exists (a :: l1), l2. repeat split; [assumption|].
    intros y [<-|Hy]; auto.
Qed.

Lemma match_url_none (url : string) :
  match_url url = None <->
  forall entry, In entry url_mappings ->
                contains (url_keyword (snd entry)) url = false.
Proof.
  unfold match_url. split.
  - intros H entry Hin. exact (find_none _ _ H entry Hin).
  - intros H.
    destruct (List.find _ url_mappings) as [e|] eqn:E; [|reflexivity].
    apply find_some in E as [Hin He]. rewrite (H e Hin) in He. discriminate.
Qed.

(** What the two loops leave: nothing, or the first entry of the table
    that matches the first URL matching any. *)
Lemma dispatch_inv (cfg : config) (urls : list string)
    (site_key user password : option string) :
  dispatch cfg urls = (site_key, user, password) ->
  (site_key = None /\ user = None /\ password = None /\
   Forall (fun url => match_url url = None) urls) \/
  (exists before url after key d,
     urls = (before ++ url :: after)%list /\
     Forall (fun u => match_url u = None) before /\
     match_url url = Some (key, d) /\
     site_key = Some key /\
     (user, password) = credentials cfg key d).
Proof.
  revert site_key user password.
  induction urls as [|url rest IH]; intros site_key user password;
    cbn [dispatch].
  - intros [= <- <- <-]. left. repeat split. constructor.
  - destruct (match_url url) as [[key d]|] eqn:Hm.
    + intros H. right. exists [], url, rest, key, d.
      destruct (credentials cfg key d) as [u p]. cbn [fst snd] in H.
      injection H as <- <- <-.
      repeat split; [constructor | assumption].
    + intros H. destruct (IH _ _ _ H) as [[-> [-> [-> Hall]]]|Hsome].
      * left. repeat split. now constructor.
      * destruct Hsome as [before [u [after [key [d [-> [Hb [Hu [-> Hc]]]]]]]]].
        right. exists (url :: before), u, after, key, d.
        repeat split; try assumption. now constructor.
Qed.

(** X10.  The site of a run is decided by the first URL that contains
    the keyword of any entry of the table, and for that URL by the
    first such entry in the order of the table; the URLs before it
    contain no keyword at all.  No site is found exactly when no URL
    contains a keyword. *)
Theorem site_is_first_match :
  forall (cfg : config) (urls : list string),
    (fst (fst (dispatch cfg urls)) = None <->
     forall url entry, In url urls -> In entry url_mappings ->
                       contains (url_keyword (snd entry)) url = false) /\
    forall key, fst (fst (dispatch cfg urls)) = Some key ->
      exists before url after d earlier later,
        urls = (before ++ url :: after)%list /\
        (forall u entry, In u before -> In entry url_mappings ->
                         contains (url_keyword (snd entry)) u = false) /\
        url_mappings = (earlier ++ (key, d) :: later)%list /\
        contains (url_keyword d) url = true /\
        (forall entry, In entry earlier ->
                       contains (url_keyword (snd entry)) url = false) /\
        snd (fst (dispatch cfg urls)) = fst (credentials cfg key d) /\
        snd (dispatch cfg urls) = snd (credentials cfg key d).
Proof.
  intros cfg urls.
  destruct (dispatch cfg urls) as [[site_key user] password] eqn:Hd.
  apply dispatch_inv in Hd. cbn [fst snd]. split.
  - split.
    + intros ->. destruct Hd as [[_ [_ [_ Hall]]]|Hsome].
      * intros url entry Hu He. rewrite Forall_forall in Hall.
        now apply (proj1 (match_url_none url) (Hall url Hu)).
      * destruct Hsome as [b [u [a [k [d [_ [_ [_ [E _]]]]]]]]].
        discriminate E.
    + intros Hnone. destruct Hd as [[-> _]|Hsome]; [reflexivity|].
      destruct Hsome as [before [url [after [key [d [-> [_ [Hm _]]]]]]]].
      assert (Hn : match_url url = None).
      { apply match_url_none. intros entry He. apply Hnone; [|assumption].
        apply in_or_app. right. now left. }
      rewrite Hn in Hm. discriminate.
  - intros key ->. destruct Hd as [[E _]|Hsome]; [discriminate|].
    destruct Hsome as [before [url [after [k [d [-> [Hb [Hm [[= <-] Hc]]]]]]]]].
    unfold match_url in Hm.
    apply find_first in Hm as [earlier [later [Ht [Hk He]]]].
    exists before, url, after, d, earlier, later.
    repeat split; try assumption.
    + intros u entry Hu Hentry. rewrite Forall_forall in Hb.
      now apply (proj1 (match_url_none u) (Hb u Hu)).
    + now rewrite <- Hc.
    + now rewrite <- Hc.
Qed.

Lemma site_is_first_match_witness :
  exists before url after d earlier later,
    ["https://example.org/x"; "https://danbooru.donmai.us/posts/1";
     "https://pixiv.net/1"] = (before ++ url :: after)%list /\
    (forall u entry, In u before -> In entry url_mappings ->
                     contains (url_keyword (snd entry)) u = false) /\
    url_mappings = (earlier ++ ("danbooru", d) :: later)%list /\
    contains (url_keyword d) url = true /\
    (forall entry, In entry earlier ->
                   contains (url_keyword (snd entry)) url = false) /\
    snd (fst (dispatch MoreSamples.cfg
                ["https://example.org/x";
                 "https://danbooru.donmai.us/posts/1";
                 "https://pixiv.net/1"]))
    = fst (credentials MoreSamples.cfg "danbooru" d) /\
    snd (dispatch MoreSamples.cfg
           ["https://example.org/x"; "https://danbooru.donmai.us/posts/1";
            "https://pixiv.net/1"])
    = snd (credentials MoreSamples.cfg "danbooru" d).
Proof.
  exact (proj2 (site_is_first_match MoreSamples.cfg
                  ["https://example.org/x";
                   "https://danbooru.donmai.us/posts/1";
                   "https://pixiv.net/1"]) "danbooru" eq_refl).
Defined.

(** The case analysis over what the command is assembled from. *)
Ltac command_cases user password cookies input_file verbose :=
  unfold command_flags, base_command;
  destruct user as [?u|]; destruct password as [?p|];
  try match goal with
      | |- context [usable (Some ?a) (Some ?b)] =>
          destruct (usable (Some a) (Some b)) eqn:?Husable
      end;
  destruct cookies as [?c|];
  try match goal with
      | |- context [truthy_str ?c] => destruct (truthy_str c)
      end;
  destruct input_file as [?f|];
  try match goal with
      | |- context [truthy_str ?f] => destruct (truthy_str f)
      end;
  destruct verbose; cbn.

Lemma flags_without_credentials
    (download_dir limit_range : string)
    (user password cookies input_file : option string) (verbose : bool) :
  usable user password = false ->
  Forall (fun a => startswith "--username=" a = false /\
                   startswith "--password=" a = false)
         (command_flags download_dir limit_range user password cookies
                        input_file verbose).
Proof.
  intros Hu.
  command_cases user password cookies input_file verbose;
    try discriminate Hu; repeat constructor.
Qed.

(** X11.  The downloader is given a user name and a password exactly
    when both values are there, neither is empty and neither is the
    placeholder [none]; then it is given both, and otherwise no
    argument of the command before the URLs starts with [--username=]
    or [--password=]. *)
Theorem credentials_are_passed_when_usable :
  forall (download_dir limit_range : string)
         (user password cookies input_file : option string)
         (verbose : bool),
    let flags := command_flags download_dir limit_range user password
                               cookies input_file verbose in
    (usable user password = true ->
     exists u p,
       user = Some u /\ password = Some p /\
       u <> "" /\ p <> "" /\ u <> "none" /\ p <> "none" /\
       In (String.append "--username=" u) flags /\
       In (String.append "--password=" p) flags) /\
    (usable user password = false ->
     Forall (fun a => startswith "--username=" a = false /\
                      startswith "--password=" a = false) flags).
Proof.
  intros download_dir limit_range user password cookies input_file verbose
         flags. subst flags. split.
  - intros Hu.
    destruct user as [u|], password as [p|]; try discriminate Hu.
    exists u, p.
    assert (Hval : u <> "" /\ p <> "" /\ u <> "none" /\ p <> "none").
    { unfold usable in Hu.
      apply andb_true_iff in Hu as [Hu Hp2].
      apply andb_true_iff in Hu as [Hu Hu2].
      apply andb_true_iff in Hu as [Hu Hp].
      apply negb_true_iff in Hu2, Hp2.
      apply String.eqb_neq in Hu2, Hp2.
      repeat split; try assumption; intros ->; discriminate. }
    destruct Hval as [H1 [H2 [H3 H4]]].
    repeat split; try assumption;
      unfold command_flags, base_command; rewrite Hu;
      destruct cookies as [c|]; try destruct (truthy_str c);
      destruct input_file as [f|]; try destruct (truthy_str f);
      destruct verbose; cbn; tauto.
  - apply flags_without_credentials.
Qed.

Lemma credentials_are_passed_when_usable_witness :
  exists u p,
    Some "me" = Some u /\ Some "secret" = Some p /\
    u <> "" /\ p <> "" /\ u <> "none" /\ p <> "none" /\
    In (String.append "--username=" u)
       (command_flags "/tmp/1.5" ":10000" (Some "me") (Some "secret") None
                      None true) /\
    In (String.append "--password=" p)
       (command_flags "/tmp/1.5" ":10000" (Some "me") (Some "secret") None
                      None true).
Proof.
  exact (proj1 (credentials_are_passed_when_usable "/tmp/1.5" ":10000"
                  (Some "me") (Some "secret") None None true) eq_refl).
Defined.

(** X12.  The command asks the downloader to be quiet exactly when the
    run is not verbose: [-q] is among the arguments before the URLs if
    and only if [verbose] is off, whatever the other arguments are. *)
Theorem quiet_unless_verbose :
  forall (download_dir limit_range : string)
         (user password cookies input_file : option string)
         (verbose : bool),
    In "-q" (command_flags download_dir limit_range user password cookies
                           input_file verbose)
    <-> verbose = false.
Proof.
  intros download_dir limit_range user password cookies input_file verbose.
  command_cases user password cookies input_file verbose;
    (split; [|intros E; try discriminate E; right; left; reflexivity]);
    intros H;
    repeat (destruct H as [H|H]; try discriminate H); try reflexivity;
    try contradiction.
Qed.

Lemma keyless_entry (key : string) (d : site_data) :
  In (key, d) url_mappings ->
  In key ["e-hentai"; "twitter"; "kemono"; "fanbox"; "pixiv"] ->
  user_key d = None /\ password_key d = None.
Proof.
  intros Hin Hkey. cbn in Hin, Hkey.
  repeat (destruct Hin as [Hin|Hin];
          [injection Hin as <- <-; try (split; reflexivity);
           exfalso; intuition discriminate|]).
  contradiction.
Qed.

(** X13.  For a run whose URLs match no site, or whose site is one of
    [e-hentai], [twitter], [kemono], [fanbox] and [pixiv], the command
    is the arguments followed by the URLs, and none of the arguments
    starts with [--username=] or [--password=], whatever the
    configuration holds for that site. *)
Theorem keyless_sites_get_no_credentials :
  forall (cfg : config) (download_dir limit_range : string)
         (urls : list string) (cookies input_file : option string)
         (verbose : bool),
    fst (fst (dispatch cfg urls)) = None \/
    (exists key,
       fst (fst (dispatch cfg urls)) = Some key /\
       In key ["e-hentai"; "twitter"; "kemono"; "fanbox"; "pixiv"]) ->
    exists flags,
      build_command cfg download_dir limit_range urls cookies input_file
                    verbose = (flags ++ urls)%list /\
      Forall (fun a => startswith "--username=" a = false /\
                       startswith "--password=" a = false) flags.
Proof.
  intros cfg download_dir limit_range urls cookies input_file verbose H.
  unfold build_command.
  destruct (dispatch cfg urls) as [[site_key user] password] eqn:Hd.
  cbn [fst snd] in H. eexists. split; [reflexivity|].
  apply flags_without_credentials.
  apply dispatch_inv in Hd as [[_ [-> [-> _]]]|Hsome]; [reflexivity|].
  destruct Hsome as [before [url [after [key [d [_ [_ [Hm [-> Hc]]]]]]]]].
  destruct H as [H|[k [[= <-] Hk]]]; [discriminate|].
  unfold match_url in Hm. apply find_some in Hm as [Hin _].
  destruct (keyless_entry Hin Hk) as [Hu Hp].
  unfold credentials in Hc. rewrite Hu, Hp in Hc.
  destruct (cfg key) as [section|]; cbn in Hc;
    try destruct (section_get section None);
    injection Hc as -> ->; reflexivity.
Qed.

Lemma keyless_sites_get_no_credentials_witness :
  exists flags,
    build_command MoreSamples.cfg "/tmp/1.5" ":10000"
                  ["https://www.pixiv.net/artworks/1"] None None false
    = (flags ++ ["https://www.pixiv.net/artworks/1"])%list /\
    Forall (fun a => startswith "--username=" a = false /\
                     startswith "--password=" a = false) flags.
Proof.
  apply keyless_sites_get_no_credentials.
  right. exists "pixiv". split; [reflexivity|]. cbn. tauto.
Defined.

(** ** Paths, suffixes and the posts of a run *)

Lemma posts_are_neither_json_nor_psd_aux
    (globbed : list string) (file : string) :
  In file (select_files globbed) ->
  In file globbed /\ suffix file <> ".json" /\ suffix file <> ".psd".
Proof.
  unfold select_files.
  rewrite filter_In, negb_true_iff, mem_false_In. simpl. intuition.
Qed.

Lemma string_of_chars_app (l1 l2 : list ascii) :
  string_of_list_ascii (l1 ++ l2)
  = (string_of_list_ascii l1 ++ string_of_list_ascii l2)%string.
Proof. induction l1 as [|c r IH]; cbn; [reflexivity | now rewrite IH]. Qed.

Lemma string_app_assoc (s t u : string) :
  ((s ++ t) ++ u)%string = (s ++ (t ++ u))%string.
Proof. induction s as [|c r IH]; cbn; [reflexivity | now rewrite IH]. Qed.

Lemma length_append (s t : string) :
  String.length (s ++ t) = String.length s + String.length t.
Proof. induction s as [|c r IH]; cbn; [reflexivity | now rewrite IH]. Qed.

Lemma split_on_from_no_sep (sep : ascii) (s : string) (cur : list ascii) :
  ~ In sep (list_ascii_of_string s) ->
  split_on_from sep s cur
  = [string_of_list_ascii (rev cur ++ list_ascii_of_string s)].
Proof.
  revert cur. induction s as [|c r IH]; intros cur Hs; cbn.
  - now rewrite app_nil_r.
  - destruct (Ascii.eqb_spec c sep) as [->|Hne]; [cbn in Hs; tauto|].
    rewrite IH by (cbn in Hs; tauto). cbn. now rewrite <- app_assoc.
Qed.

Lemma split_on_from_last (sep : ascii) (s rest : string) (cur : list ascii) :
  ~ In sep (list_ascii_of_string rest) ->
  exists l, split_on_from sep (s ++ String sep rest) cur = (l ++ [rest])%list.
Proof.
  intros Hrest. revert cur. induction s as [|c r IH]; intros cur; cbn.
  - rewrite Ascii.eqb_refl, split_on_from_no_sep by assumption. cbn.
    rewrite string_of_list_ascii_of_string.
    now exists [string_of_list_ascii (rev cur)].
  - destruct (Ascii.eqb c sep).
    + destruct (IH []) as [l ->].
      now exists (string_of_list_ascii (rev cur) :: l).
    + apply IH.
Qed.

Lemma rfind_append (c : ascii) (s t : string) :
  rfind c (s ++ t)
  = match rfind c t with
    | Some i => Some (String.length s + i)
    | None => rfind c s
    end.
Proof.
  induction s as [|d r IH]; cbn.
  - now destruct (rfind c t).
  - rewrite IH. now destruct (rfind c t).
Qed.

Lemma slice_from_append (s t : string) :
  slice_from (String.length s) (s ++ t) = t.
Proof. induction s as [|c r IH]; cbn; [now destruct t | assumption]. Qed.

Lemma rfind_none (c : ascii) (s : string) :
  rfind c s = None -> ~ In c (list_ascii_of_string s).
Proof.
  induction s as [|d r IH]; cbn; [tauto|].
  destruct (rfind c r); [discriminate|].
  destruct (Ascii.eqb_spec c d) as [->|Hne]; [discriminate|].
  intros _ [E|E]; [congruence | now apply IH].
Qed.

(** From the last occurrence on, the character comes once. *)
Lemma rfind_some (c : ascii) (s : string) (i : nat) :
  rfind c s = Some i ->
  exists e,
    slice_from i s = String c e /\
    ~ In c (list_ascii_of_string e) /\
    String.length s = i + 1 + String.length e.
Proof.
  revert i. induction s as [|d r IH]; intros i; cbn; [discriminate|].
  destruct (rfind c r) as [j|] eqn:Hr.
  - intros [= <-]. destruct (IH j eq_refl) as [e [H1 [H2 H3]]].
    exists e. cbn. split; [assumption|]. split; [assumption | lia].
  - destruct (Ascii.eqb_spec c d) as [->|Hne]; [|discriminate].
    intros [= <-]. exists r. cbn. split; [reflexivity|].
    split; [now apply rfind_none | lia].
Qed.

(** A suffix is empty or a dot followed by a non-empty text without
    dots. *)
Lemma suffix_shape (file : string) :
  suffix file = "" \/
  exists e, suffix file = String "." e /\ e <> "" /\
            ~ In "."%char (list_ascii_of_string e).
Proof.
  unfold suffix. destruct (rfind "." (path_name file)) as [i|] eqn:Hr;
    [|now left].
  destruct ((0 <? i) && (i <? String.length (path_name file) - 1))%nat
    eqn:Hi; [|now left].
  right. apply rfind_some in Hr as [e [H1 [H2 H3]]]. exists e.
  repeat split; try assumption.
  apply andb_true_iff in Hi as [_ Hi]. apply Nat.ltb_lt in Hi.
  intros ->. cbn in H3. lia.
Qed.

Lemma path_name_of_entry (dir name : string) :
  ~ In "/"%char (list_ascii_of_string name) ->
  name <> "" -> name <> "." ->
  path_name (dir ++ String "/" name) = name.
Proof.
  intros Hslash Hne Hdot. unfold path_name, split_on.
  destruct (@split_on_from_last "/"%char dir name [] Hslash) as [l ->].
  rewrite filter_app. cbn [filter].
  destruct (String.eqb_spec name "") as [E|_]; [contradiction|].
  destruct (String.eqb_spec name ".") as [E|_]; [contradiction|].
  cbn [orb negb]. apply last_last.
Qed.

(** X14.  The sidecar of a downloaded file is never taken for a post:
    for an entry of a directory with a non-empty name, the path with
    [.json] appended has the suffix [.json] and is not among the
    selected files, whatever the listing holds. *)
Theorem sidecar_is_never_a_post :
  forall (dir name : string) (globbed : list string),
    ~ In "/"%char (list_ascii_of_string name) ->
    name <> "" ->
    suffix ((dir ++ String "/" name) ++ ".json") = ".json" /\
    ~ In ((dir ++ String "/" name) ++ ".json") (select_files globbed).
Proof.
  intros dir name globbed Hslash Hne.
  assert (Hs : suffix ((dir ++ String "/" name) ++ ".json") = ".json").
  { replace ((dir ++ String "/" name) ++ ".json")
      with (dir ++ String "/" (name ++ ".json"))
      by (rewrite string_app_assoc; reflexivity).
    unfold suffix. rewrite path_name_of_entry.
    - rewrite rfind_append. cbn [rfind Ascii.eqb Bool.eqb].
      change (rfind "." ".json") with (Some 0).
      rewrite Nat.add_0_r, length_append.
      destruct name as [|c r]; [contradiction|]. cbn [String.length].
      match goal with
      | |- (if ?b then _ else _) = _ => destruct b eqn:Hb
      end.
      + apply (slice_from_append (String c r) ".json").
      + apply andb_false_iff in Hb as [Hb|Hb]; apply Nat.ltb_ge in Hb;
          cbn in Hb; lia.
    - rewrite chars_append, in_app_iff. cbn.
      intros [H|H]; [tauto|]. intuition discriminate.
    - destruct name; [contradiction | discriminate].
    - destruct name as [|c [|d r]]; [contradiction | discriminate
                                     | discriminate]. }
  split; [assumption|].
  unfold select_files. rewrite filter_In, Hs. cbn. intros [_ H].
  discriminate H.
Qed.

Lemma sidecar_is_never_a_post_witness :
  suffix (("/tmp/17.5" ++ String "/" "1.jpg") ++ ".json") = ".json" /\
  ~ In (("/tmp/17.5" ++ String "/" "1.jpg") ++ ".json")
       (select_files Samples.downloaded).
Proof.
  apply sidecar_is_never_a_post.
  - cbn. intuition discriminate.
  - discriminate.
Defined.

(** X15.  The extension a post is uploaded under holds no dot and is
    neither [json] nor [psd]; it is empty exactly when the file has no
    suffix, and the suffix is the dot followed by it otherwise. *)
Theorem extension_of_a_post :
  forall (globbed : list string) (file : string),
    In file (select_files globbed) ->
    let extension := slice_from 1 (suffix file) in
    ~ In "."%char (list_ascii_of_string extension) /\
    extension <> "json" /\ extension <> "psd" /\
    (suffix file = "" /\ extension = "" \/
     suffix file = String "." extension /\ extension <> "").
Proof.
  intros globbed file Hin extension. subst extension.
  apply posts_are_neither_json_nor_psd_aux in Hin as [_ [Hj Hp]].
  destruct (suffix_shape file) as [E|[e [E [He Hdot]]]]; rewrite E in *; cbn.
  - repeat split; try tauto; discriminate.
  - repeat split; try assumption; try (intros ->; congruence).
    right. now split.
Qed.

Lemma extension_of_a_post_witness :
  ~ In "."%char (list_ascii_of_string (slice_from 1 (suffix "/tmp/17.5/1.jpg")))
  /\ slice_from 1 (suffix "/tmp/17.5/1.jpg") <> "json".
Proof.
  pose proof (@extension_of_a_post Samples.downloaded "/tmp/17.5/1.jpg"
                (or_introl eq_refl)) as H.
  split; [exact (proj1 H) | exact (proj1 (proj2 H))].
Defined.

(** What the loop leaves: uploads for the files up to the first one
    that fails, each made from the file's sidecar, and the rate-limit
    flag passed from each upload to the next. *)
Lemma import_files_inv
    (search_artist : string -> option string)
    (generate_src : metadata -> string) (convert_rating : string -> string)
    (extract_twitter_artist : metadata -> list string)
    (default_safety : string) (sidecar : string -> option metadata)
    (file_bytes : string -> string)
    (upload : string -> string -> metadata -> bool -> bool)
    (site_key : option string) (files : list string) (reached : bool) :
  exists rest,
    files
    = (map up_file
         (fst (import_files search_artist generate_src convert_rating
                 extract_twitter_artist default_safety sidecar file_bytes
                 upload site_key files reached)) ++ rest)%list /\
    (snd (import_files search_artist generate_src convert_rating
            extract_twitter_artist default_safety sidecar file_bytes
            upload site_key files reached) = true <-> rest = []) /\
    Forall (fun call =>
              up_extension call = slice_from 1 (suffix (up_file call)) /\
              exists m, sidecar (up_file call ++ ".json") = Some m /\
                        annotate search_artist generate_src convert_rating
                                 extract_twitter_artist default_safety
                                 site_key m
                        = Ok (up_metadata call))
           (fst (import_files search_artist generate_src convert_rating
                   extract_twitter_artist default_safety sidecar file_bytes
                   upload site_key files reached)) /\
    (forall call,
       hd_error (fst (import_files search_artist generate_src convert_rating
                        extract_twitter_artist default_safety sidecar
                        file_bytes upload site_key files reached))
       = Some call ->
       up_limit_reached call = reached) /\
    (forall i call next,
       nth_error (fst (import_files search_artist generate_src convert_rating
                         extract_twitter_artist default_safety sidecar
                         file_bytes upload site_key files reached)) i
       = Some call ->
       nth_error (fst (import_files search_artist generate_src convert_rating
                         extract_twitter_artist default_safety sidecar
                         file_bytes upload site_key files reached)) (S i)
       = Some next ->
       up_limit_reached next
       = upload (file_bytes (up_file call)) (up_extension call)
                (up_metadata call) (up_limit_reached call)).
Proof.
  revert reached. induction files as [|file rest IH]; intros reached.
  - exists []. cbn. repeat split; try constructor; try discriminate;
      try (intros [|i] call next H; discriminate H).
  - cbn [import_files].
    destruct (sidecar (file ++ ".json")) as [m|] eqn:Hs.
    + destruct (annotate search_artist generate_src convert_rating
                  extract_twitter_artist default_safety site_key m)
        as [m'| | | |] eqn:Ha;
        try (exists (file :: rest); cbn;
             repeat split; try constructor; try discriminate;
             try (intros [|i] call next H; discriminate H); fail).
      cbn [fst snd map].
      destruct (IH (upload (file_bytes file) (slice_from 1 (suffix file)) m'
                           reached))
        as [rest' [H1 [H2 [H3 [H4 H5]]]]].
      exists rest'. split; [cbn [map app up_file]; now f_equal|].
      split; [assumption|]. split.
      * constructor; [|assumption]. cbn. split; [reflexivity|].
        exists m. now split.
      * split; [cbn; now intros call [= <-]|].
        intros [|i] call next; cbn [nth_error].
        -- intros [= <-] Hn. cbn. apply H4.
           destruct (fst _) as [|c l]; [discriminate | exact Hn].
        -- apply H5.
    + exists (file :: rest). cbn.
      repeat split; try constructor; try discriminate;
        try (intros [|i] call next H; discriminate H).
Qed.

(** Where the loop stops: it has made the uploads of the files before
    the first one whose sidecar is missing or cannot be annotated, and
    of all files when there is no such file. *)
Lemma import_files_stop
    (search_artist : string -> option string)
    (generate_src : metadata -> string) (convert_rating : string -> string)
    (extract_twitter_artist : metadata -> list string)
    (default_safety : string) (sidecar : string -> option metadata)
    (file_bytes : string -> string)
    (upload : string -> string -> metadata -> bool -> bool)
    (site_key : option string) (files : list string) (reached : bool) :
  exists rest,
    files
    = (map up_file
         (fst (import_files search_artist generate_src convert_rating
                 extract_twitter_artist default_safety sidecar file_bytes
                 upload site_key files reached)) ++ rest)%list /\
    Forall (fun call =>
              up_extension call = slice_from 1 (suffix (up_file call)) /\
              exists m, sidecar (up_file call ++ ".json") = Some m /\
                        annotate search_artist generate_src convert_rating
                                 extract_twitter_artist default_safety
                                 site_key m
                        = Ok (up_metadata call))
           (fst (import_files search_artist generate_src convert_rating
                   extract_twitter_artist default_safety sidecar file_bytes
                   upload site_key files reached)) /\
    match rest with
    | [] =>
        snd (import_files search_artist generate_src convert_rating
               extract_twitter_artist default_safety sidecar file_bytes
               upload site_key files reached) = true
    | file :: _ =>
        snd (import_files search_artist generate_src convert_rating
               extract_twitter_artist default_safety sidecar file_bytes
               upload site_key files reached) = false /\
        (sidecar (file ++ ".json") = None \/
         exists m,
           sidecar (file ++ ".json") = Some m /\
           forall m', annotate search_artist generate_src convert_rating
                               extract_twitter_artist default_safety
                               site_key m <> Ok m')
    end.
Proof.
  revert reached. induction files as [|file rest IH]; intros reached.
  - exists []. cbn. repeat split. constructor.
  - cbn [import_files].
    destruct (sidecar (file ++ ".json")) as [m|] eqn:Hs.
    + destruct (annotate search_artist generate_src convert_rating
                  extract_twitter_artist default_safety site_key m)
        as [m'| | | |] eqn:Ha;
        try (exists (file :: rest); cbn [fst snd map app];
             split; [reflexivity|]; split; [constructor|];
             split; [reflexivity|]; right; exists m;
             split; [assumption|]; rewrite Ha; discriminate).
      cbn [fst snd map].
      destruct (IH (upload (file_bytes file) (slice_from 1 (suffix file)) m'
                           reached))
        as [rest' [H1 [H2 H3]]].
      exists rest'. split; [cbn [map app up_file]; now f_equal|].
      split; [|exact H3].
      constructor; [|assumption]. cbn. split; [reflexivity|].
      exists m. now split.
    + exists (file :: rest). cbn [fst snd map app].
      split; [reflexivity|]. split; [constructor|].
      split; [reflexivity|]. now left.
Qed.

(** C7, as the code has it.  The posts of a run are the paths of the
    listing whose suffix is neither [.json] nor [.psd].  The loop hands
    them to the upload step in the order of the listing, all of them
    when each one has a sidecar that can be annotated; and a path with
    the suffix [.json] or [.psd] is never handed to it. *)
Theorem posts_are_neither_json_nor_psd :
  forall (search_artist : string -> option string)
         (generate_src : metadata -> string)
         (convert_rating : string -> string)
         (extract_twitter_artist : metadata -> list string)
         (default_safety : string)
         (sidecar : string -> option metadata)
         (file_bytes : string -> string)
         (upload : string -> string -> metadata -> bool -> bool)
         (cfg : config) (urls globbed : list string) (dir_exists : bool),
    let calls :=
      fst (fst (import_run search_artist generate_src convert_rating
                  extract_twitter_artist default_safety sidecar file_bytes
                  upload cfg urls globbed dir_exists)) in
    (forall file,
       In file (select_files globbed) <->
       In file globbed /\ suffix file <> ".json" /\ suffix file <> ".psd") /\
    ((forall file,
        In file (select_files globbed) ->
        exists m m',
          sidecar (file ++ ".json") = Some m /\
          annotate search_artist generate_src convert_rating
                   extract_twitter_artist default_safety
                   (fst (fst (dispatch cfg urls))) m = Ok m') ->
     map up_file calls = select_files globbed) /\
    (forall call,
       In call calls ->
       In (up_file call) globbed /\
       suffix (up_file call) <> ".json" /\ suffix (up_file call) <> ".psd").
Proof.
  intros sa gs cr ex ds sidecar file_bytes upload cfg urls globbed
         dir_exists calls. subst calls.
  unfold import_run.
  destruct (dispatch cfg urls) as [[site_key user] password].
  cbn [fst].
  destruct (import_files_stop sa gs cr ex ds sidecar file_bytes upload
              site_key (select_files globbed) false)
    as [rest [H1 [_ H3]]].
  split; [|split].
  - intros file. split; [apply posts_are_neither_json_nor_psd_aux|].
    unfold select_files.
    rewrite filter_In, negb_true_iff, mem_false_In. simpl. intuition.
  - intros Hall. destruct rest as [|file rest'].
    + now rewrite app_nil_r in H1.
    + exfalso. destruct H3 as [_ H3].
      destruct (Hall file) as [m [m' [Hs Ha]]].
      { rewrite H1. apply in_or_app. right. now left. }
      destruct H3 as [H3|[m0 [H3 H4]]]; [congruence|].
      rewrite Hs in H3. injection H3 as <-. exact (H4 m' Ha).
  - intros call Hin. apply posts_are_neither_json_nor_psd_aux.
    rewrite H1. apply in_or_app. left. now apply in_map.
Qed.

(** A listing with a sidecar and a Photoshop file among two posts. *)
Lemma posts_are_neither_json_nor_psd_witness :
  map up_file
      (fst (fst (import_run Samples.nobody Samples.no_source
                   Samples.same_rating Samples.no_twitter_artist "safe"
                   MoreSamples.sidecars MoreSamples.bytes_of
                   MoreSamples.limit_after_first MoreSamples.cfg
                   ["https://danbooru.donmai.us/posts/1"]
                   ["/tmp/17.5/1.jpg"; "/tmp/17.5/1.jpg.json";
                    "/tmp/17.5/2.psd"; "/tmp/17.5/3.png"] true)))
  = select_files ["/tmp/17.5/1.jpg"; "/tmp/17.5/1.jpg.json";
                  "/tmp/17.5/2.psd"; "/tmp/17.5/3.png"].
Proof.
  apply (proj1 (proj2 (posts_are_neither_json_nor_psd Samples.nobody
                         Samples.no_source Samples.same_rating
                         Samples.no_twitter_artist "safe"
                         MoreSamples.sidecars MoreSamples.bytes_of
                         MoreSamples.limit_after_first MoreSamples.cfg
                         ["https://danbooru.donmai.us/posts/1"]
                         ["/tmp/17.5/1.jpg"; "/tmp/17.5/1.jpg.json";
                          "/tmp/17.5/2.psd"; "/tmp/17.5/3.png"] true))).
  intros file Hin. vm_compute in Hin.
  destruct Hin as [<-|[<-|[]]]; eexists; eexists; split; reflexivity.
Defined.

(** X16.  A run makes its uploads for the selected files in the order
    of the listing, each under the extension cut from its suffix and
    with the record annotated from its own sidecar.  It stops before
    the first selected file whose sidecar is missing or cannot be
    annotated, and then reports no success and leaves the download
    directory; when there is no such file it uploads them all, reports
    success and removes the directory if it is there. *)
Theorem uploads_stop_at_first_failure :
  forall (search_artist : string -> option string)
         (generate_src : metadata -> string)
         (convert_rating : string -> string)
         (extract_twitter_artist : metadata -> list string)
         (default_safety : string)
         (sidecar : string -> option metadata)
         (file_bytes : string -> string)
         (upload : string -> string -> metadata -> bool -> bool)
         (cfg : config) (urls globbed : list string) (dir_exists : bool)
         (calls : list upload_call) (removed finished : bool),
    import_run search_artist generate_src convert_rating
               extract_twitter_artist default_safety sidecar file_bytes
               upload cfg urls globbed dir_exists
    = (calls, removed, finished) ->
    exists rest,
      select_files globbed = (map up_file calls ++ rest)%list /\
      Forall (fun call =>
                up_extension call = slice_from 1 (suffix (up_file call)) /\
                exists m,
                  sidecar (up_file call ++ ".json") = Some m /\
                  annotate search_artist generate_src convert_rating
                           extract_twitter_artist default_safety
                           (fst (fst (dispatch cfg urls))) m
                  = Ok (up_metadata call))
             calls /\
      match rest with
      | [] => finished = true /\ removed = dir_exists
      | file :: _ =>
          finished = false /\ removed = false /\
          (sidecar (file ++ ".json") = None \/
           exists m,
             sidecar (file ++ ".json") = Some m /\
             forall m', annotate search_artist generate_src convert_rating
                                 extract_twitter_artist default_safety
                                 (fst (fst (dispatch cfg urls))) m
                        <> Ok m')
      end.
Proof.
  intros sa gs cr ex ds sidecar file_bytes upload cfg urls globbed
         dir_exists calls removed finished.
  unfold import_run.
  destruct (dispatch cfg urls) as [[site_key user] password].
  cbn [fst]. intros [= <- <- <-].
  destruct (import_files_stop sa gs cr ex ds sidecar file_bytes upload
              site_key (select_files globbed) false)
    as [rest [H1 [H2 H3]]].
  exists rest. split; [assumption|]. split; [assumption|].
  destruct rest as [|file rest'].
  - rewrite H3. now split.
  - destruct H3 as [H3 H4]. rewrite H3. repeat split; assumption.
Qed.

(** A listing where the second of three posts has no sidecar. *)
Lemma uploads_stop_at_first_failure_witness :
  exists rest,
    select_files ["/tmp/17.5/1.jpg"; "/tmp/17.5/2.gif"; "/tmp/17.5/3.png"]
    = (map up_file
           [UploadCall "/tmp/17.5/1.jpg" "jpg"
              (Metadata (Some "danbooru") (Some "") None (Some "safe")
                        (Some (TagList ["a"; "b"; "c"])) None None)
              false] ++ rest)%list /\
    match rest with
    | [] => false = true /\ false = true
    | file :: _ =>
        false = false /\ false = false /\
        (MoreSamples.sidecars (file ++ ".json") = None \/
         exists m,
           MoreSamples.sidecars (file ++ ".json") = Some m /\
           forall m', annotate Samples.nobody Samples.no_source
                               Samples.same_rating Samples.no_twitter_artist
                               "safe"
                               (fst (fst (dispatch MoreSamples.cfg
                                  ["https://danbooru.donmai.us/posts/1"])))
                               m
                      <> Ok m')
    end.
Proof.
  destruct (@uploads_stop_at_first_failure Samples.nobody Samples.no_source
              Samples.same_rating Samples.no_twitter_artist "safe"
              MoreSamples.sidecars MoreSamples.bytes_of
              MoreSamples.limit_after_first MoreSamples.cfg
              ["https://danbooru.donmai.us/posts/1"]
              ["/tmp/17.5/1.jpg"; "/tmp/17.5/2.gif"; "/tmp/17.5/3.png"]
              true _ _ _ eq_refl) as [rest [H1 [_ H3]]].
  exists rest. split; assumption.
Defined.

(** X17.  The rate-limit flag is threaded through the uploads of a
    run: the first upload is told the limit is not reached, and every
    later one is told what the upload before it returned. *)
Theorem limit_flag_is_threaded :
  forall (search_artist : string -> option string)
         (generate_src : metadata -> string)
         (convert_rating : string -> string)
         (extract_twitter_artist : metadata -> list string)
         (default_safety : string)
         (sidecar : string -> option metadata)
         (file_bytes : string -> string)
         (upload : string -> string -> metadata -> bool -> bool)
         (cfg : config) (urls globbed : list string) (dir_exists : bool),
    let calls :=
      fst (fst (import_run search_artist generate_src convert_rating
                  extract_twitter_artist default_safety sidecar file_bytes
                  upload cfg urls globbed dir_exists)) in
    (forall call, hd_error calls = Some call ->
                  up_limit_reached call = false) /\
    (forall i call next,
       nth_error calls i = Some call ->
       nth_error calls (S i) = Some next ->
       up_limit_reached next
       = upload (file_bytes (up_file call)) (up_extension call)
                (up_metadata call) (up_limit_reached call)).
Proof.
  intros sa gs cr ex ds sidecar file_bytes upload cfg urls globbed
         dir_exists calls. subst calls.
  unfold import_run.
  destruct (dispatch cfg urls) as [[site_key user] password].
  cbn [fst].
  destruct (import_files_inv sa gs cr ex ds sidecar file_bytes upload
              site_key (select_files globbed) false)
    as [rest [_ [_ [_ [H4 H5]]]]].
  split; assumption.
Qed.

(** ** Comma lists and scraped URLs *)

Import Scrape.

Lemma split_on_from_length (sep : ascii) (s : string) (cur : list ascii) :
  List.length (split_on_from sep s cur)
  = S (count_occ ascii_dec (list_ascii_of_string s) sep).
Proof.
  revert cur. induction s as [|c r IH]; intros cur; cbn; [reflexivity|].
  destruct (Ascii.eqb_spec c sep) as [->|Hne].
  - cbn. rewrite IH. now destruct (ascii_dec sep sep).
  - rewrite IH. now destruct (ascii_dec c sep).
Qed.

Lemma split_on_from_fields
    (sep : ascii) (s : string) (cur : list ascii) (field : string) :
  In field (split_on_from sep s cur) ->
  forall c, In c (list_ascii_of_string field) ->
            c <> sep /\ In c (list_ascii_of_string s) \/ In c cur.
Proof.
  revert cur. induction s as [|d r IH]; intros cur; cbn.
  - intros [<-|[]] c. rewrite list_ascii_of_string_of_list_ascii.
    rewrite <- in_rev. tauto.
  - destruct (Ascii.eqb_spec d sep) as [->|Hne].
    + intros [<-|Hin] c.
      * rewrite list_ascii_of_string_of_list_ascii, <- in_rev. tauto.
      * intros Hc. destruct (IH [] Hin c Hc) as [[H1 H2]|[]]. tauto.
    + intros Hin c Hc. destruct (IH (d :: cur) Hin c Hc) as [[H1 H2]|[<-|H]];
        tauto.
Qed.

Lemma remove_char_chars (a : ascii) (s : string) :
  list_ascii_of_string (replace (String a EmptyString) "" s)
  = filter (fun c => negb (Ascii.eqb c a)) (list_ascii_of_string s).
Proof.
  unfold replace. induction s as [|c r IH]; cbn; [reflexivity|].
  destruct (ascii_dec a c) as [<-|Hne]; cbn.
  - replace (String.prefix "" r) with true by (now destruct r).
    rewrite Ascii.eqb_refl. exact IH.
  - destruct (Ascii.eqb_spec c a) as [->|_]; [congruence|].
    cbn. now rewrite IH.
Qed.

Lemma remove_spaces_chars (s : string) :
  list_ascii_of_string (replace " " "" s)
  = filter (fun c => negb (Ascii.eqb c " ")) (list_ascii_of_string s).
Proof. apply remove_char_chars. Qed.

Lemma count_commas_without_spaces (l : list ascii) :
  count_occ ascii_dec (filter (fun c => negb (Ascii.eqb c " ")) l) ","%char
  = count_occ ascii_dec l ","%char.
Proof.
  induction l as [|c r IH]; [reflexivity|]. cbn [filter].
  destruct (Ascii.eqb_spec c " ") as [->|Hne]; cbn [negb count_occ].
  - rewrite IH. now destruct (ascii_dec " " ","%char).
  - rewrite IH. reflexivity.
Qed.

(** X18.  A comma list of the command line gives one tag more than it
    holds commas, so that a doubled or a trailing comma gives an empty
    tag; and no tag holds a comma or a space. *)
Theorem comma_list_fields :
  forall (s : string),
    List.length (comma_list s)
    = S (count_occ ascii_dec (list_ascii_of_string s) ","%char) /\
    forall t, In t (comma_list s) ->
              ~ In ","%char (list_ascii_of_string t) /\
              ~ In " "%char (list_ascii_of_string t).
Proof.
  intros s. unfold comma_list, split_on. split.
  - now rewrite split_on_from_length, remove_spaces_chars,
      count_commas_without_spaces.
  - intros t Ht. split; intros Hc;
      destruct (split_on_from_fields _ _ _ _ Ht _ Hc) as [[H1 H2]|[]].
    + congruence.
    + rewrite remove_spaces_chars in H2. apply filter_In in H2 as [_ H2].
      discriminate H2.
Qed.

Lemma contains_head (a : ascii) (sub s : string) :
  contains (String a sub) s = true -> In a (list_ascii_of_string s).
Proof.
  induction s as [|c r IH]; cbn; [discriminate|].
  destruct (ascii_dec a c) as [->|Hne]; [tauto|]. cbn. tauto.
Qed.

Lemma lstrip_keeps (c : ascii) (s : string) :
  is_blank c = false -> In c (list_ascii_of_string s) ->
  In c (list_ascii_of_string (lstrip s)).
Proof.
  intros Hc. induction s as [|d r IH]; cbn; [tauto|].
  destruct (is_blank d) eqn:Hd; cbn; [|tauto].
  intros [->|H]; [congruence | auto].
Qed.

Lemma rstrip_keeps (c : ascii) (s : string) :
  is_blank c = false -> In c (list_ascii_of_string s) ->
  In c (list_ascii_of_string (rstrip s)).
Proof.
  intros Hc. induction s as [|d r IH]; cbn; [tauto|].
  intros [->|H].
  - destruct (rstrip r); [rewrite Hc|]; cbn; tauto.
  - specialize (IH H). destruct (rstrip r) as [|e k]; [contradiction|].
    right. exact IH.
Qed.

Lemma digits_value_chars (s : string) (acc n : Z) (after_digit : bool) :
  digits_value acc after_digit s = Some n ->
  forall c, In c (list_ascii_of_string s) ->
            is_digit c = true \/ c = "_"%char.
Proof.
  revert acc after_digit. induction s as [|d r IH]; intros acc b; cbn;
    [tauto|].
  destruct (is_digit d) eqn:Hd.
  - intros H c [<-|Hc]; [tauto | eapply IH; eassumption].
  - destruct (Ascii.eqb_spec d "_") as [->|_]; [|discriminate].
    destruct b; [|discriminate].
    intros H c [<-|Hc]; [tauto | eapply IH; eassumption].
Qed.

(** What the reader of the examples accepts is made of white space, a
    sign, digits and underscores. *)
Lemma ascii_decimal_chars (s : string) (n : Z) :
  ascii_decimal s = Some n ->
  forall c, In c (list_ascii_of_string s) ->
            is_blank c = true \/ is_digit c = true \/
            c = "_"%char \/ c = "+"%char \/ c = "-"%char.
Proof.
  intros H c Hc. destruct (is_blank c) eqn:Hs; [tauto|]. right.
  apply (@lstrip_keeps c s Hs) in Hc. apply (@rstrip_keeps c _ Hs) in Hc.
  unfold ascii_decimal in H.
  destruct (rstrip (lstrip s)) as [|d r]; [contradiction|].
  destruct (Ascii.eqb_spec d "+") as [->|Hp].
  - destruct Hc as [<-|Hc]; [tauto|].
    destruct (@digits_value_chars _ _ _ _ H _ Hc); tauto.
  - destruct (Ascii.eqb_spec d "-") as [->|Hm].
    + destruct Hc as [<-|Hc]; [tauto|].
      destruct (digits_value 0 false r) as [v|] eqn:Hv; [|discriminate].
      destruct (@digits_value_chars _ _ _ _ Hv _ Hc); tauto.
    + assert (Hd : digits_value 0 false (String d r) = Some n).
      { destruct d as [[] [] [] [] [] [] [] []]; try exact H;
          congruence. }
      destruct (@digits_value_chars _ _ _ _ Hd _ Hc); tauto.
Qed.

(** So it reads no text that holds a letter. *)
Lemma ascii_decimal_no_letter (s : string) (n : Z) (c : ascii) :
  ascii_decimal s = Some n -> In c (list_ascii_of_string s) ->
  is_letter c = false.
Proof.
  intros H Hc.
  destruct (@ascii_decimal_chars s n H c Hc) as [E|[E|[E|[E|E]]]];
    try (subst c; reflexivity);
    destruct c as [[] [] [] [] [] [] [] []]; try reflexivity;
    discriminate E.
Qed.

(** X19.  For a URL that names danbooru, the post is the number [int]
    reads from what follows the last [=], and the other two clients
    are not asked.  When there is no [=] in the URL, as in the
    [/posts/<id>] form of a post's address, [int] gets the whole URL,
    and as it reads no text that holds a letter the call raises. *)
Theorem danbooru_post_id_follows_last_equals :
  forall (to_int : string -> option Z) (danbooru_tags : Z -> list string)
         (gelbooru_tags pixiv_tags : string -> list string)
         (url : string),
    contains "danbooru" url = true ->
    (forall before id,
       url = before ++ String "=" id ->
       ~ In "="%char (list_ascii_of_string id) ->
       scrape_url_tags to_int danbooru_tags gelbooru_tags pixiv_tags url
       = option_map danbooru_tags (to_int id)) /\
    ((forall s n c, to_int s = Some n ->
                    In c (list_ascii_of_string s) -> is_letter c = false) ->
     ~ In "="%char (list_ascii_of_string url) ->
     scrape_url_tags to_int danbooru_tags gelbooru_tags pixiv_tags url
     = None).
Proof.
  intros to_int dt gt pt url Hd. unfold scrape_url_tags. rewrite Hd. split.
  - intros before id -> Hid. unfold split_on.
    destruct (@split_on_from_last "="%char before id [] Hid) as [l ->].
    rewrite last_last. now destruct (to_int id).
  - intros Hint Hno. unfold split_on.
    rewrite split_on_from_no_sep by assumption. cbn [rev app last].
    rewrite string_of_list_ascii_of_string.
    destruct (to_int url) as [n|] eqn:Hn; [|reflexivity].
    apply contains_head in Hd.
    discriminate (Hint url n "d"%char Hn Hd).
Qed.

Lemma danbooru_post_id_follows_last_equals_witness :
  scrape_url_tags ascii_decimal MoreSamples.no_tags_z MoreSamples.no_tags
                  MoreSamples.no_tags "https://danbooru.donmai.us/posts/123"
  = None.
Proof.
  apply (proj2 (danbooru_post_id_follows_last_equals ascii_decimal
                  MoreSamples.no_tags_z MoreSamples.no_tags
                  MoreSamples.no_tags
                  "https://danbooru.donmai.us/posts/123" eq_refl)).
  - exact ascii_decimal_no_letter.
  - cbn. intuition discriminate.
Defined.

(** A URL that names none of danbooru, gelbooru and pixiv gives no
    tags and raises nothing. *)
Lemma unknown_url_scrapes_nothing :
  forall (to_int : string -> option Z) (danbooru_tags : Z -> list string)
         (gelbooru_tags pixiv_tags : string -> list string)
         (url : string),
    (forall entry, In entry ["danbooru"; "gelbooru"; "pixiv"] ->
                   contains entry url = false) ->
    scrape_url_tags to_int danbooru_tags gelbooru_tags pixiv_tags url
    = Some [].
Proof.
  intros to_int dt gt pt url H. unfold scrape_url_tags.
  rewrite (H "danbooru"), (H "gelbooru"), (H "pixiv") by (cbn; tauto).
  reflexivity.
Qed.

Lemma comma_list_fields_witness :
  List.length (comma_list "a,,b ,")
  = S (count_occ ascii_dec (list_ascii_of_string "a,,b ,") ","%char).
Proof. exact (proj1 (comma_list_fields "a,,b ,")). Defined.

Lemma limit_flag_is_threaded_witness :
  up_limit_reached
    (UploadCall "/tmp/17.5/1.jpg" "jpg"
       (Metadata (Some "danbooru") (Some "") None (Some "safe")
                 (Some (TagList ["a"; "b"; "c"])) None None)
       false)
  = false.
Proof.
  exact (proj1 (limit_flag_is_threaded Samples.nobody Samples.no_source
                  Samples.same_rating Samples.no_twitter_artist "safe"
                  MoreSamples.sidecars MoreSamples.bytes_of
                  MoreSamples.limit_after_first MoreSamples.cfg
                  ["https://danbooru.donmai.us/posts/1"]
                  ["/tmp/17.5/1.jpg"; "/tmp/17.5/3.png"] true)
           (UploadCall "/tmp/17.5/1.jpg" "jpg"
              (Metadata (Some "danbooru") (Some "") None (Some "safe")
                        (Some (TagList ["a"; "b"; "c"])) None None)
              false)
           eq_refl).
Defined.
